(** * pyrinha: the Rinha tree-walking interpreter of [src/pyrinha/main.py]

    A shallow embedding of the AST classes, of their [__str__] renderers, of
    the runtime values and environments, and of [evaluate] / [run_file],
    followed by the properties established about them.

    Conventions of the embedding.
    - A Python [int] is a [Z] (unbounded); a Python [str] is a [string]
      holding its UTF-8 bytes, on which concatenation, equality and the
      code-point order coincide with Python's.
    - Every [Env] object lives in a store and is named by its address, so
      that the in-place patch done by [Let] and the cycle Env -> Closure ->
      Env are represented as they are in the interpreter.
    - [evaluate] is a state-and-exception computation: the state is the
      store of environments and the text written to standard output; an
      exception is either the interpreter's [ExecutionError] or one raised
      by the Python runtime itself.
    - Recursion is bounded by a [fuel] argument that stands for the
      recursion limit of the Python runtime; running out of it is
      [RecursionError].
    - [str] of an [int] raises [ValueError] beyond the number of digits the
      runtime allows. *)

From Stdlib Require Import ZArith String Ascii DecimalString HexadecimalString.
From stdpp Require Import gmap strings list.

Open Scope string_scope.
Open Scope Z_scope.

(** ** Host services

    What the module takes from the Python runtime and cannot be read off the
    file itself. *)

Definition nl : string := String (ascii_of_nat 10) EmptyString.

(** The text of [str(n)] for an [int], when [str] returns it: the decimal
    digits, with a minus sign when [n] is negative. *)
Definition str_int (n : Z) : string :=
  DecimalString.NilZero.string_of_int (Z.to_int n).

(** The number of decimal digits of [n], the sign left out. *)
Definition decimal_digits (n : Z) : Z :=
  Z.of_nat (String.length (str_int (Z.abs n))).

(** [str(b)] for a [bool]. *)
Definition str_bool (b : bool) : string := if b then "True" else "False".

(** [hex(n)]. *)
Definition hex (n : Z) : string :=
  (if n <? 0 then "-0x" else "0x")
  +:+ HexadecimalString.NilZero.string_of_int (Z.to_hex_int (Z.abs n)).

(** [s[-n:]]: the last [n] characters of [s], all of [s] when it is shorter. *)
Definition last_chars (n : nat) (s : string) : string :=
  substring (String.length s - n) n s.

(** [sep.join(l)]. *)
Definition join (sep : string) (l : list string) : string := String.concat sep l.

(** ** AST *)

Record Loc := mkLoc { start : Z; end_ : Z; filename : string }.

Record Symbol := mkSymbol { Symbol_location : Loc; text : string }.

Definition Symbol_str (self : Symbol) : string := text self.

Record Operator := mkOperator { token : string; precedence : Z; assoc : bool }.

Inductive BinaryOp :=
  ADD | SUB | MUL | DIV | REM | EQ | NEQ | LT | GT | LTE | GTE | AND | OR | NOT.

(** The [value] of each member of the enumeration. *)
Definition BinaryOp_value (op : BinaryOp) : Operator :=
  match op with
  | ADD => mkOperator "+" 30 true
  | SUB => mkOperator "-" 30 true
  | MUL => mkOperator "*" 40 true
  | DIV => mkOperator "/" 40 true
  | REM => mkOperator "%" 40 true
  | EQ => mkOperator "==" 20 false
  | NEQ => mkOperator "!=" 20 false
  | LT => mkOperator "<" 20 true
  | GT => mkOperator ">" 20 true
  | LTE => mkOperator "<=" 20 true
  | GTE => mkOperator ">=" 20 true
  | AND => mkOperator "&" 10 true
  | OR => mkOperator "|" 5 true
  | NOT => mkOperator "!" 25 true
  end.

Set Warnings "-register-all".

(** The subclasses of [Term]. [Function] is a type of its own because a
    [Closure] holds a [Function] node, not an arbitrary term. *)
Inductive Term :=
  | Let (location : Loc) (name : Symbol) (value next : Term)
  | FunctionTerm (function : Function)
  | If (location : Loc) (condition then_ otherwise : Term)
  | Binary (location : Loc) (lhs : Term) (op : BinaryOp) (rhs : Term)
  | Call (location : Loc) (callee : Term) (arguments : list Term)
  | Print (location : Loc) (value : Term)
  | Var (location : Loc) (text : string)
  | Int (location : Loc) (value : Z)
  | Str (location : Loc) (value : string)
with Function :=
  | mkFunction (location : Loc) (value : Term) (parameters : list Symbol).

Definition Function_value (f : Function) : Term :=
  match f with mkFunction _ value _ => value end.

Definition Function_parameters (f : Function) : list Symbol :=
  match f with mkFunction _ _ parameters => parameters end.

Record File := mkFile { File_location : Loc; File_name : string; expression : Term }.

(** ** Pretty printer: the [__str__] methods of the AST

    [Term_str] is the text that the methods return. That they return
    depends on the runtime, on the depth of the stack and on the length of
    the integers: [Term_render], below with the interpreter, is the
    rendering as it runs, and returns this text when it returns. *)

Section Printer.

(** [repr] of a [str] and [textwrap.indent text prefix], both of the
    Python library. *)
Variable repr : string -> string.
Variable indent : string -> string -> string.

(** [isinstance(side, Binary)] together with [side.op.value.precedence],
    as the two conditional expressions of [Binary.__str__] compute it. *)
Definition side_precedence (side : Term) : Z :=
  match side with
  | Binary _ _ op _ => precedence (BinaryOp_value op)
  | _ => 99
  end.

Definition isinstance_Var (t : Term) : bool :=
  match t with Var _ _ => true | _ => false end.

Fixpoint Term_str (self : Term) : string :=
  match self with
  | Let _ name value next =>
      "let " +:+ Symbol_str name +:+ " = " +:+ Term_str value +:+ ";" +:+ nl
      +:+ Term_str next
  | FunctionTerm f => Function_str f
  | If _ condition then_ otherwise =>
      let then_s := indent (Term_str then_) "  " in
      let otherwise_s := indent (Term_str otherwise) "  " in
      "if " +:+ Term_str condition +:+ " {" +:+ nl
      +:+ then_s +:+ nl
      +:+ "} else {" +:+ nl
      +:+ otherwise_s +:+ nl
      +:+ "}"
  | Binary _ lhs op rhs =>
      let self_precedence := precedence (BinaryOp_value op) in
      let lhs_precedence := side_precedence lhs in
      let rhs_precedence := side_precedence rhs in
      let lhs_s := Term_str lhs in
      let lhs_s :=
        if lhs_precedence <? self_precedence then "(" +:+ lhs_s +:+ ")" else lhs_s in
      let rhs_s := Term_str rhs in
      let rhs_s :=
        if rhs_precedence <? self_precedence then "(" +:+ rhs_s +:+ ")" else rhs_s in
      lhs_s +:+ " " +:+ token (BinaryOp_value op) +:+ " " +:+ rhs_s
  | Call _ callee arguments =>
      let callee_s := Term_str callee in
      let callee_s :=
        if negb (isinstance_Var callee) then "(" +:+ callee_s +:+ ")" else callee_s in
      let args := join ", " (map Term_str arguments) in
      callee_s +:+ "(" +:+ args +:+ ")"
  | Print _ value => "print (" +:+ Term_str value +:+ ")"
  | Var _ text => text
  | Int _ value => str_int value
  | Str _ value => repr value
  end
with Function_str (self : Function) : string :=
  match self with
  | mkFunction _ value parameters =>
      let value_s := indent (Term_str value) "  " in
      let params := join ", " (map Symbol_str parameters) in
      "fn (" +:+ params +:+ ") => {" +:+ nl
      +:+ value_s +:+ nl
      +:+ "}"
  end.

Definition File_str (self : File) : string := Term_str (expression self).

End Printer.

(** ** Values *)

(** What a [Literal] wraps: a Python [int], [str] or [bool]. *)
Inductive Scalar :=
  | PyInt (n : Z)
  | PyStr (s : string)
  | PyBool (b : bool).

(** An [Env] object is named by its address in the store. *)
Definition addr := nat.

Inductive Value :=
  | Literal (x : Scalar)
  | Closure (function : Function) (env : addr).

(** The class patterns [int()], [str()] and [bool()] of a [match] statement
    are [isinstance] tests, and in Python [bool] is a subclass of [int]:
    [True] and [False] are the integers 1 and 0. *)
Definition as_int (x : Scalar) : option Z :=
  match x with
  | PyInt n => Some n
  | PyBool b => Some (if b then 1 else 0)
  | PyStr _ => None
  end.

Definition as_str (x : Scalar) : option string :=
  match x with PyStr s => Some s | _ => None end.

Definition as_bool (x : Scalar) : option bool :=
  match x with PyBool b => Some b | _ => None end.

Definition int_int (l r : Scalar) : option (Z * Z) :=
  match as_int l, as_int r with Some a, Some b => Some (a, b) | _, _ => None end.

Definition str_str (l r : Scalar) : option (string * string) :=
  match as_str l, as_str r with Some a, Some b => Some (a, b) | _, _ => None end.

Definition bool_bool (l r : Scalar) : option (bool * bool) :=
  match as_bool l, as_bool r with Some a, Some b => Some (a, b) | _, _ => None end.

(** Python's [==] on two scalars: numbers (booleans included) compare by
    value, strings with strings, and a number never equals a string. *)
Definition Scalar_eq (l r : Scalar) : bool :=
  match int_int l r, str_str l r with
  | Some (a, b), _ => a =? b
  | None, Some (a, b) => String.eqb a b
  | None, None => false
  end.

(** The [__eq__] and [__ne__] that [attrs] generates for [Literal]: the
    classes agree, so the tuples of fields [(x,)] are compared. *)
Definition Literal_eq (l r : Scalar) : bool := Scalar_eq l r.
Definition Literal_ne (l r : Scalar) : bool := negb (Literal_eq l r).

(** ** Exceptions and the evaluation monad *)

Inductive Exception :=
  | ExecutionError (msg : string)   (* class ExecutionError(Exception) *)
  | ZeroDivisionError               (* raised by Python's // and % *)
  | NameError (name : string)       (* raised by Python on an unbound name *)
  | ValueError                      (* raised by str() on an int with too many digits *)
  | RecursionError.                 (* raised by Python when the stack is exhausted *)

Inductive Outcome (A : Type) :=
  | Returns (a : A)
  | Raises (e : Exception).
Arguments Returns {A} a.
Arguments Raises {A} e.

#[global] Instance Outcome_ret : MRet Outcome := @Returns.
#[global] Instance Outcome_bind : MBind Outcome := fun A B f m =>
  match m with
  | Returns a => f a
  | Raises e => Raises e
  end.

(** The store of [Env] objects (the [values] dict of each, by address) and
    what has been written to standard output so far. *)
Record State := mkState { envs : list (gmap string Value); stdout : string }.

Definition Eval (A : Type) : Type := State -> Outcome A * State.

#[global] Instance Eval_ret : MRet Eval := fun A a st => (Returns a, st).
#[global] Instance Eval_bind : MBind Eval := fun A B f m st =>
  match m st with
  | (Returns a, st') => f a st'
  | (Raises e, st') => (Raises e, st')
  end.

Definition raise {A} (e : Exception) : Eval A := fun st => (Raises e, st).

Definition lift {A} (o : Outcome A) : Eval A := fun st => (o, st).

(** [print(s, end="")]. *)
Definition write (s : string) : Eval unit := fun st =>
  (Returns tt, {| envs := envs st; stdout := stdout st +:+ s |}).

(** ** Env *)

(** [Env(values)]: a new object holding its own copy of [values]. *)
Definition new_Env (values : gmap string Value) : Eval addr := fun st =>
  (Returns (length (envs st)), {| envs := envs st ++ [values]; stdout := stdout st |}).

(** [self.values]. Addresses are only ever produced by [new_Env], so the
    lookup is that of an allocated Env. *)
Definition values (self : addr) : Eval (gmap string Value) := fun st =>
  (Returns (envs st !!! self), st).

(** [self.values[key] = v]. *)
Definition setitem (self : addr) (key : string) (v : Value) : Eval unit := fun st =>
  (Returns tt,
   {| envs := <[self := <[key := v]> (envs st !!! self)]> (envs st); stdout := stdout st |}).

Definition global_env : Eval addr :=
  new_Env (<["true" := Literal (PyBool true)]> (<["false" := Literal (PyBool false)]> ∅)).

(** [values = dict(self.values); values.update(extra); return Env(values)]:
    the bindings of [extra] win. *)
Definition with_values (self : addr) (extra : gmap string Value) : Eval addr :=
  vs ← values self;
  new_Env (extra ∪ vs).

(** ** The interpreter *)

(** What [evaluate] and the [__str__] of values take from their
    surroundings.
    - [repr] and [indent]: [repr] on a [str], and [textwrap.indent].
    - [id]: Python's [id] on a closure object, its address in CPython; it is
      set by the runtime, not by the program.
    - [args]: the module has no [args] of its own; the only binding of that
      name is the global assigned under [if __name__ == "__main__"], so it
      is [None] when the module is imported, and [Some s], with [s] what
      [str] gives for the parsed command line, when it runs as a script.
    - [int_max_str_digits]: [sys.get_int_max_str_digits()], the number of
      digits beyond which [str] of an [int] raises [ValueError]; 4300 unless
      the runtime is set otherwise, and 0 when there is no limit. *)
Record Host := mkHost {
  repr : string -> string;
  indent : string -> string -> string;
  id : Value -> Z;
  args : option string;
  int_max_str_digits : Z
}.

Section Interpreter.

Variable host : Host.

(** [str(n)] for an [int]: [ValueError] when a limit is set and [n] has more
    digits than it allows. *)
Definition int_str (n : Z) : Outcome string :=
  if (0 <? int_max_str_digits host) && (int_max_str_digits host <? decimal_digits n)
  then Raises ValueError
  else Returns (str_int n).

(** [Literal.__str__]: [str(self.x)]. *)
Definition Literal_str (x : Scalar) : Outcome string :=
  match x with
  | PyInt n => int_str n
  | PyStr s => Returns s
  | PyBool b => Returns (str_bool b)
  end.

(** The [__str__] methods of the AST as they run: every nested call of
    [str] uses one more level of the stack, so that a term nested deeper
    than [fuel] allows ends in [RecursionError], and an [Int] is rendered by
    [str] of its value. The operands of each method are rendered in the
    order in which it calls [str] on them. When the rendering returns, it
    returns the text given by [Term_str]. *)
Fixpoint Term_render (fuel : nat) (self : Term) : Outcome string :=
  match fuel with
  | O => Raises RecursionError
  | S fuel =>
    match self with
    | Let _ name value next =>
        value_s ← Term_render fuel value;
        next_s ← Term_render fuel next;
        mret ("let " +:+ Symbol_str name +:+ " = " +:+ value_s +:+ ";" +:+ nl +:+ next_s)
    | FunctionTerm (mkFunction _ value parameters) =>
        value_s ← Term_render fuel value;
        let value_s := indent host value_s "  " in
        let params := join ", " (map Symbol_str parameters) in
        mret ("fn (" +:+ params +:+ ") => {" +:+ nl +:+ value_s +:+ nl +:+ "}")
    | If _ condition then_ otherwise =>
        then_s ← Term_render fuel then_;
        otherwise_s ← Term_render fuel otherwise;
        condition_s ← Term_render fuel condition;
        mret ("if " +:+ condition_s +:+ " {" +:+ nl
              +:+ indent host then_s "  " +:+ nl
              +:+ "} else {" +:+ nl
              +:+ indent host otherwise_s "  " +:+ nl
              +:+ "}")
    | Binary _ lhs op rhs =>
        let self_precedence := precedence (BinaryOp_value op) in
        lhs_s ← Term_render fuel lhs;
        let lhs_s :=
          if side_precedence lhs <? self_precedence then "(" +:+ lhs_s +:+ ")" else lhs_s in
        rhs_s ← Term_render fuel rhs;
        let rhs_s :=
          if side_precedence rhs <? self_precedence then "(" +:+ rhs_s +:+ ")" else rhs_s in
        mret (lhs_s +:+ " " +:+ token (BinaryOp_value op) +:+ " " +:+ rhs_s)
    | Call _ callee arguments =>
        callee_s ← Term_render fuel callee;
        let callee_s :=
          if negb (isinstance_Var callee) then "(" +:+ callee_s +:+ ")" else callee_s in
        args ← mapM (Term_render fuel) arguments;
        mret (callee_s +:+ "(" +:+ join ", " args +:+ ")")
    | Print _ value =>
        value_s ← Term_render fuel value;
        mret ("print (" +:+ value_s +:+ ")")
    | Var _ text => mret text
    | Int _ value => int_str value
    | Str _ value => mret (repr host value)
    end
  end.

(** [str(function)] for a [Function] node. *)
Definition Function_render (fuel : nat) (function : Function) : Outcome string :=
  Term_render fuel (FunctionTerm function).

(** [Closure.__str__]: [ptr] is computed first, then the f-string reads
    the name [args]. *)
Definition Closure_str (self : Value) : Outcome string :=
  let ptr := last_chars 6 (hex (id host self)) in
  match args host with
  | None => Raises (NameError "args")
  | Some a => Returns ("<Closure#" +:+ ptr +:+ " fn (" +:+ a +:+ ")>")
  end.

(** [str(v)] for a runtime value. *)
Definition Value_str (v : Value) : Outcome string :=
  match v with
  | Literal x => Literal_str x
  | Closure _ _ => Closure_str v
  end.

(** [raise ExecutionError(f"Invalid operands for '{op.value.token}': {lhs}, {rhs}")];
    the f-string renders [lhs] before [rhs]. *)
Definition invalid_operands {A} (tok : string) (lhs rhs : Value) : Outcome A :=
  l ← Value_str lhs;
  r ← Value_str rhs;
  Raises (ExecutionError ("Invalid operands for '" +:+ tok +:+ "': " +:+ l +:+ ", " +:+ r)).

(** [raise ExecutionError(f"'{f}' is not callable")], for a callee that is
    a Literal. *)
Definition not_callable {A} (x : Scalar) : Outcome A :=
  s ← Literal_str x;
  Raises (ExecutionError ("'" +:+ s +:+ "' is not callable")).

(** [raise ExecutionError(f"'{f.function}' called with {len(arguments)} arguments")];
    the rendering of the function has [fuel] levels of the stack left. *)
Definition wrong_arity {A} (fuel : nat) (function : Function) (arguments : list Term)
    : Outcome A :=
  function_s ← Function_render fuel function;
  n ← int_str (Z.of_nat (length arguments));
  Raises (ExecutionError
            ("'" +:+ function_s +:+ "' called with " +:+ n +:+ " arguments")).

(** One [case tok, <class>(), <class>()] of the operator table. *)
Definition on {A} (tok tok' : string) (operands : option A) : option A :=
  if String.eqb tok tok' then operands else None.

(** [lhs.x // rhs.x] and [lhs.x % rhs.x]: Python raises when the divisor
    is zero, and otherwise rounds the quotient towards minus infinity. *)
Definition floordiv (a b : Z) : Outcome Value :=
  if b =? 0 then Raises ZeroDivisionError else Returns (Literal (PyInt (a / b))).

Definition pymod (a b : Z) : Outcome Value :=
  if b =? 0 then Raises ZeroDivisionError else Returns (Literal (PyInt (a mod b))).

(** The second [match] of the [Binary] case, on
    [op.value.token, lhs.x, rhs.x], its cases in the order of the source. *)
Definition operate (tok : string) (l r : Scalar) : Outcome Value :=
  match on tok "+" (int_int l r) with Some (a, b) => Returns (Literal (PyInt (a + b))) | None =>
  match on tok "+" (str_str l r) with Some (a, b) => Returns (Literal (PyStr (a +:+ b))) | None =>
  match on tok "-" (int_int l r) with Some (a, b) => Returns (Literal (PyInt (a - b))) | None =>
  match on tok "*" (int_int l r) with Some (a, b) => Returns (Literal (PyInt (a * b))) | None =>
  match on tok "/" (int_int l r) with Some (a, b) => floordiv a b | None =>
  match on tok "%" (int_int l r) with Some (a, b) => pymod a b | None =>
  match on tok "==" (Some (l, r)) with Some (a, b) => Returns (Literal (PyBool (Literal_eq a b))) | None =>
  match on tok "!=" (Some (l, r)) with Some (a, b) => Returns (Literal (PyBool (Literal_ne a b))) | None =>
  match on tok "<" (int_int l r) with Some (a, b) => Returns (Literal (PyBool (a <? b))) | None =>
  match on tok "<" (str_str l r) with Some (a, b) => Returns (Literal (PyBool (String.ltb a b))) | None =>
  match on tok ">" (int_int l r) with Some (a, b) => Returns (Literal (PyBool (b <? a))) | None =>
  match on tok ">" (str_str l r) with Some (a, b) => Returns (Literal (PyBool (String.ltb b a))) | None =>
  match on tok "<=" (int_int l r) with Some (a, b) => Returns (Literal (PyBool (a <=? b))) | None =>
  match on tok "<=" (str_str l r) with Some (a, b) => Returns (Literal (PyBool (String.leb a b))) | None =>
  match on tok ">=" (int_int l r) with Some (a, b) => Returns (Literal (PyBool (b <=? a))) | None =>
  match on tok ">=" (str_str l r) with Some (a, b) => Returns (Literal (PyBool (String.leb b a))) | None =>
  match on tok "&" (bool_bool l r) with Some (a, b) => Returns (Literal (PyBool (a && b))) | None =>
  match on tok "|" (bool_bool l r) with Some (a, b) => Returns (Literal (PyBool (a || b))) | None =>
  invalid_operands tok (Literal l) (Literal r)
  end end end end end end end end end end end end end end end end end end.

(** The first [match] of the [Binary] case, on [lhs, rhs], then the second. *)
Definition binary (op : BinaryOp) (lhs rhs : Value) : Outcome Value :=
  let tok := token (BinaryOp_value op) in
  match lhs, rhs with
  | Literal l, Literal r => operate tok l r
  | _, _ => invalid_operands tok lhs rhs
  end.

(** The dict comprehension of the [Call] case over
    [zip(f.function.parameters, values)]: [values] is a generator, so each
    argument is evaluated when [zip] asks for it, in order, and a repeated
    parameter name keeps the last value. *)
Fixpoint bind_parameters (evaluate_arg : Term -> Eval (addr * Value))
    (parameters : list Symbol) (arguments : list Term)
    (params : gmap string Value) : Eval (gmap string Value) :=
  match parameters, arguments with
  | param :: parameters', arg :: arguments' =>
      '(_, value) ← evaluate_arg arg;
      bind_parameters evaluate_arg parameters' arguments' (<[text param := value]> params)
  | _, _ => mret params
  end.

(** [evaluate(env, term)], case by case as in the source. [fuel] bounds the
    nesting of the recursive calls, those of [__str__] included when a
    message renders a function. The last case of the source,
    [case _: raise ExecutionError(f"Unexpected type {type(term)}")], has no
    counterpart: a [Term] is one of the nine classes. *)
Fixpoint evaluate (fuel : nat) (env : addr) (term : Term) : Eval (addr * Value) :=
  match fuel with
  | O => raise RecursionError
  | S fuel =>
    match term with
    | Int _ value => mret (env, Literal (PyInt value))
    | Str _ value => mret (env, Literal (PyStr value))
    | Var _ text =>
        vs ← values env;
        match vs !! text with
        | None => raise (ExecutionError ("unknown variable '" +:+ text +:+ "'"))
        | Some v => mret (env, v)
        end
    | Let _ name value next =>
        '(_, val) ← evaluate fuel env value;
        next_env ← with_values env {[ text name := val ]};
        match val with
        | Closure function _ =>
            (* Let of fn is recursive, so closure must be able to reference itself. *)
            let new_val := Closure function next_env in
            setitem next_env (text name) new_val
        | Literal _ => mret tt
        end;;
        evaluate fuel next_env next
    | FunctionTerm function => mret (env, Closure function env)
    | If _ condition then_ otherwise =>
        '(_, cond) ← evaluate fuel env condition;
        match cond with
        | Literal (PyBool true) => evaluate fuel env then_
        | Literal (PyBool false) => evaluate fuel env otherwise
        | _ => raise (ExecutionError "condition in 'if' is not boolean")
        end
    | Binary _ lhs op rhs =>
        '(_, lhs) ← evaluate fuel env lhs;
        '(_, rhs) ← evaluate fuel env rhs;
        v ← lift (binary op lhs rhs);
        mret (env, v)
    | Call _ callee arguments =>
        '(_, f) ← evaluate fuel env callee;
        match f with
        | Literal x => lift (not_callable x)
        | Closure function f_env =>
            if negb (length arguments =? length (Function_parameters function))%nat then
              lift (wrong_arity fuel function arguments)
            else
              params ← bind_parameters (evaluate fuel env)
                         (Function_parameters function) arguments ∅;
              call_env ← with_values f_env params;
              evaluate fuel call_env (Function_value function)
        end
    | Print _ value =>
        '(_, val) ← evaluate fuel env value;
        s ← lift (Value_str val);
        write s;;
        mret (env, val)
    end
  end.

Definition initial_state : State := {| envs := []; stdout := "" |}.

(** [run_file], run by a fresh process. *)
Definition run_file (fuel : nat) (file : File) : Outcome (addr * Value) * State :=
  (env ← global_env; evaluate fuel env (expression file)) initial_state.

End Interpreter.

(** ** Programs and hosts used in the examples *)

Definition here : Loc := mkLoc 0 0 "main.rinha".

(** A host for running examples. Its [repr] is Python's on printable ASCII
    text without quotes or backslashes, its [indent] is [textwrap.indent] on
    a single non-blank line. [as_module] is the imported module,
    [as_script] the module run from the command line on [main.json]. *)
Definition as_module (id : Value -> Z) : Host :=
  {| repr := fun s => "'" +:+ s +:+ "'";
     indent := fun text prefix => prefix +:+ text;
     id := id;
     args := None;
     int_max_str_digits := 4300 |}.

Definition as_script (id : Value -> Z) : Host :=
  {| repr := repr (as_module id);
     indent := indent (as_module id);
     id := id;
     args := Some "Namespace(file=PosixPath('main.json'))";
     int_max_str_digits := 4300 |}.

(** Two address assignments a CPython process may make. *)
Definition id_run1 (_ : Value) : Z := 139814936759696.


(** [let f = fn (n) => if n == 0 {1} else {n * f(n - 1)}; f(5)] *)
Definition factorial_program : File :=
  mkFile here "main.rinha"
    (Let here (mkSymbol here "f")
       (FunctionTerm
          (mkFunction here
             (If here (Binary here (Var here "n") EQ (Int here 0))
                (Int here 1)
                (Binary here (Var here "n") MUL
                   (Call here (Var here "f")
                      [Binary here (Var here "n") SUB (Int here 1)])))
             [mkSymbol here "n"]))
       (Call here (Var here "f") [Int here 5])).

(** [let x = 1; let f = fn () => x; let x = 2; f()] *)
Definition capture_program : File :=
  mkFile here "main.rinha"
    (Let here (mkSymbol here "x") (Int here 1)
       (Let here (mkSymbol here "f")
          (FunctionTerm (mkFunction here (Var here "x") []))
          (Let here (mkSymbol here "x") (Int here 2)
             (Call here (Var here "f") [])))).

(** [let x = 1; let f = fn () => x; let x = 2; let g = f; g()] *)
Definition rebound_capture_program : File :=
  mkFile here "main.rinha"
    (Let here (mkSymbol here "x") (Int here 1)
       (Let here (mkSymbol here "f")
          (FunctionTerm (mkFunction here (Var here "x") []))
          (Let here (mkSymbol here "x") (Int here 2)
             (Let here (mkSymbol here "g") (Var here "f")
                (Call here (Var here "g") []))))).

(** [let f = (let y = 5; fn () => y); f()] *)
Definition escaping_closure_program : File :=
  mkFile here "main.rinha"
    (Let here (mkSymbol here "f")
       (Let here (mkSymbol here "y") (Int here 5)
          (FunctionTerm (mkFunction here (Var here "y") [])))
       (Call here (Var here "f") [])).

(** [fn (a) => a] and [print (fn (a) => a)] *)
Definition identity_function : Function :=
  mkFunction here (Var here "a") [mkSymbol here "a"].

Definition print_closure_program : File :=
  mkFile here "main.rinha" (Print here (FunctionTerm identity_function)).

(** ** Notions used in the statements *)


(** The tag that [Closure.__str__] draws from the address of a closure. *)
Definition tag (id : Value -> Z) (self : Value) : string :=
  last_chars 6 (hex (id self)).

(** Whether an exception is of the interpreter's own class. *)
Definition is_ExecutionError (e : Exception) : bool :=
  match e with ExecutionError _ => true | _ => false end.

(** The exception a run ended with, and the value it returned. *)
Definition raised {A} (r : Outcome A * State) : option Exception :=
  match fst r with Raises e => Some e | Returns _ => None end.

Definition returned {A} (r : Outcome (addr * A) * State) : option A :=
  match fst r with Returns (_, v) => Some v | Raises _ => None end.

(** The mathematical result of an arithmetic operator on the integers [a]
    and [b], stated without reference to any machine representation: the
    quotient of [/] is the floor of [a / b] and the remainder of [%] is what
    that quotient leaves. *)
Definition exact_result (op : BinaryOp) (a b z : Z) : Prop :=
  match op with
  | ADD => z = a + b
  | SUB => z = a - b
  | MUL => z = a * b
  | DIV => exists r, a = b * z + r /\ (0 <= r < b \/ b < r <= 0)
  | REM => exists q, a = b * q + z /\ (0 <= z < b \/ b < z <= 0)
  | _ => False
  end.

Definition is_arithmetic (op : BinaryOp) : bool :=
  match op with ADD | SUB | MUL | DIV | REM => true | _ => false end.

Definition is_division (op : BinaryOp) : bool :=
  match op with DIV | REM => true | _ => false end.

(** The value that [Let] leaves under the bound name: a closure is replaced
    by [evolve(val, env=next_env)]. *)
Definition rebound (next_env : addr) (val : Value) : Value :=
  match val with
  | Closure function _ => Closure function next_env
  | Literal _ => val
  end.

(** A computation that leaves every Env of the store it starts from as it
    was, and at most adds new ones. *)
Definition extends {A} (m : Eval A) : Prop :=
  forall st r st', m st = (r, st') -> envs st `prefix_of` envs st'.

(** The rule as the specification words it. The precedence of a side is
    that of its operator when the side is a [Binary], and infinite
    otherwise ([None]); a side is wrapped iff its precedence is strictly
    less than that of the operator being rendered. *)
Definition precedence_of_side (side : Term) : option Z :=
  match side with
  | Binary _ _ op _ => Some (precedence (BinaryOp_value op))
  | _ => None
  end.

Definition wrapped (op : BinaryOp) (side : Term) : bool :=
  match precedence_of_side side with
  | Some p => p <? precedence (BinaryOp_value op)
  | None => false
  end.

Definition in_parentheses_if (b : bool) (s : string) : string :=
  if b then "(" +:+ s +:+ ")" else s.

(** A scalar on which [str] raises [ValueError]: an integer with more
    digits than the limit of the runtime allows. *)
Definition too_long (host : Host) (x : Scalar) : Prop :=
  exists n, x = PyInt n /\ 0 < int_max_str_digits host < decimal_digits n.

(** What the operator table can answer on two scalars: a Literal; Python's
    [ZeroDivisionError] for a division of numbers by zero; and, for operands
    it does not admit, the [ExecutionError] whose message shows them, or
    the [ValueError] of [str] when one of them is too long to be shown. *)
Definition table_answer (host : Host) (tok : string) (l r : Scalar)
    (o : Outcome Value) : Prop :=
  (exists x, o = Returns (Literal x))
  \/ (o = Raises ZeroDivisionError
      /\ (tok = "/" \/ tok = "%") /\ as_int r = Some 0 /\ as_int l <> None)
  \/ (exists sl sr,
        Literal_str host l = Returns sl /\ Literal_str host r = Returns sr
        /\ o = Raises (ExecutionError
                         ("Invalid operands for '" +:+ tok +:+ "': "
                          +:+ sl +:+ ", " +:+ sr)))
  \/ (o = Raises ValueError /\ (too_long host l \/ too_long host r)).

(** The operators of the table that take two numbers, and what each
    computes on them. *)
Definition numeric_result (op : BinaryOp) (a b : Z) : option Scalar :=
  match op with
  | ADD => Some (PyInt (a + b))
  | SUB => Some (PyInt (a - b))
  | MUL => Some (PyInt (a * b))
  | LT => Some (PyBool (a <? b))
  | GT => Some (PyBool (b <? a))
  | LTE => Some (PyBool (a <=? b))
  | GTE => Some (PyBool (b <=? a))
  | _ => None
  end.

(** Two scalars that an ordering operator accepts together. *)
Definition comparable (l r : Scalar) : bool :=
  match int_int l r, str_str l r with
  | None, None => false
  | _, _ => true
  end.

(** The arguments of a call evaluated one after the other, from left to
    right, each in the state the previous one left. *)
Fixpoint evaluate_in_order (evaluate_arg : Term -> Eval (addr * Value))
    (arguments : list Term) : Eval (list Value) :=
  match arguments with
  | [] => mret []
  | arg :: arguments' =>
      '(_, value) ← evaluate_arg arg;
      values ← evaluate_in_order evaluate_arg arguments';
      mret (value :: values)
  end.

(** A callee that a [Call] refuses before it looks at the arguments: a
    Literal, or a Closure that takes another number of parameters than
    there are arguments. *)
Definition refused (f : Value) (arguments : list Term) : bool :=
  match f with
  | Literal _ => true
  | Closure function _ =>
      negb (length arguments =? length (Function_parameters function))%nat
  end.

(** The exception that such a [Call] raises: the [ExecutionError] whose
    message shows the callee, or what [str] raises while the message is
    built. *)
Definition refusal (host : Host) (fuel : nat) (f : Value) (arguments : list Term)
    (ex : Exception) : Prop :=
  match f with
  | Literal x =>
      match Literal_str host x with
      | Returns s => ex = ExecutionError ("'" +:+ s +:+ "' is not callable")
      | Raises e => ex = e
      end
  | Closure function _ =>
      match Function_render host fuel function with
      | Returns function_s =>
          match int_str host (Z.of_nat (length arguments)) with
          | Returns n =>
              ex = ExecutionError
                     ("'" +:+ function_s +:+ "' called with " +:+ n +:+ " arguments")
          | Raises e => ex = e
          end
      | Raises e => ex = e
      end
  end.

(** The dict built from parameters and values taken in pairs, a later pair
    replacing an earlier one of the same name. *)
Definition bound (parameters : list Symbol) (values : list Value)
    (params : gmap string Value) : gmap string Value :=
  foldl (fun d pv => <[text pv.1 := pv.2]> d) params (zip parameters values).

(** A value that refers only to allocated Envs, in a store of [n] Envs,
    and a store all of whose Envs hold such values. *)
Definition Value_ok (n : nat) (v : Value) : Prop :=
  match v with
  | Closure _ env => (env < n)%nat
  | Literal _ => True
  end.

Definition store_ok (store : list (gmap string Value)) : Prop :=
  Forall (map_Forall (fun _ v => Value_ok (length store) v)) store.

(** What a run leaves to be looked at: the Env and the value it returned,
    if it returned. *)
Definition result_ok (n : nat) (r : Outcome (addr * Value)) : Prop :=
  match r with
  | Returns (e, v) => (e < n)%nat /\ Value_ok n v
  | Raises _ => True
  end.

(** What one call of [evaluate] keeps: from a store whose closures refer
    to allocated Envs, and an allocated Env, it reaches such a store again,
    no smaller, and returns an allocated Env and such a value. *)
Definition keeps_allocated (host : Host) (fuel : nat) : Prop :=
  forall env term st r st',
    store_ok (envs st) -> (env < length (envs st))%nat ->
    evaluate host fuel env term st = (r, st') ->
    store_ok (envs st') /\ (length (envs st) <= length (envs st'))%nat
    /\ result_ok (length (envs st')) r.

(** Whether a run was stopped by the recursion limit. *)
Definition hit_limit {A} (r : Outcome A) : bool :=
  match r with
  | Raises RecursionError => true
  | _ => false
  end.

(** [m'] does what [m] does whenever [m] is not stopped by the recursion
    limit. *)
Definition completes {A} (m m' : Eval A) : Prop :=
  forall st r st', m st = (r, st') -> hit_limit r = false -> m' st = (r, st').

(** A computation that only adds to what has been printed. *)
Definition prints {A} (m : Eval A) : Prop :=
  forall st, exists out, stdout (snd (m st)) = stdout st +:+ out.

(** [let f = fn (n) => if n == 0 {1} else {n * f(n - 1)}; f(k)], for any
    integer [k], and the factorial it is meant to compute. *)
Definition factorial_body : Term :=
  If here (Binary here (Var here "n") EQ (Int here 0))
    (Int here 1)
    (Binary here (Var here "n") MUL
       (Call here (Var here "f") [Binary here (Var here "n") SUB (Int here 1)])).

Definition factorial_function : Function :=
  mkFunction here factorial_body [mkSymbol here "n"].

Definition factorial_of (k : Z) : File :=
  mkFile here "main.rinha"
    (Let here (mkSymbol here "f") (FunctionTerm factorial_function)
       (Call here (Var here "f") [Int here k])).

Fixpoint factorial (k : nat) : Z :=
  match k with
  | O => 1
  | S k' => Z.of_nat k * factorial k'
  end.

(** ** Equations of the evaluation monad *)

Lemma bind_Returns {A B} (m : Eval A) (f : A -> Eval B) st a st' :
  m st = (Returns a, st') -> (m ≫= f) st = f a st'.
Proof. intros H. unfold mbind, Eval_bind. now rewrite H. Qed.

Lemma bind_Raises {A B} (m : Eval A) (f : A -> Eval B) st e st' :
  m st = (Raises e, st') -> (m ≫= f) st = (Raises e, st').
Proof. intros H. unfold mbind, Eval_bind. now rewrite H. Qed.

Lemma evaluate_Binary host fuel env loc lhs op rhs st e1 l st1 e2 r st2 :
  evaluate host fuel env lhs st = (Returns (e1, l), st1) ->
  evaluate host fuel env rhs st1 = (Returns (e2, r), st2) ->
  evaluate host (S fuel) env (Binary loc lhs op rhs) st =
  (v ← binary host op l r; mret (env, v), st2).
Proof.
  intros Hl Hr. simpl.
  rewrite (bind_Returns _ _ _ _ _ Hl). simpl.
  rewrite (bind_Returns _ _ _ _ _ Hr). simpl.
  unfold lift, mbind, Eval_bind, Outcome_bind.
  now destruct (binary host op l r).
Qed.

Lemma evaluate_Int host fuel env loc n st :
  evaluate host (S fuel) env (Int loc n) st = (Returns (env, Literal (PyInt n)), st).
Proof. reflexivity. Qed.

(** ** Division by zero *)

(** C1, as stated, fails on [1 / 0] and on [1 % 0]: what is raised is
    Python's own [ZeroDivisionError], which is not an [ExecutionError]. *)
Lemma division_by_zero_is_not_ExecutionError :
  let file op := mkFile here "main.rinha" (Binary here (Int here 1) op (Int here 0)) in
  raised (run_file (as_module id_run1) 1000 (file DIV)) = Some ZeroDivisionError
  /\ raised (run_file (as_module id_run1) 1000 (file REM)) = Some ZeroDivisionError
  /\ is_ExecutionError ZeroDivisionError = false.
Proof. vm_compute. auto. Qed.

(** C1, amended: a [Binary] whose operator is [/] or [%], whose operands
    evaluate to integer Literals and whose right operand is zero raises
    Python's [ZeroDivisionError]; nothing in [evaluate] turns it into an
    [ExecutionError]. *)
Theorem division_by_zero_raises_ZeroDivisionError
    host fuel env loc lhs op rhs st e1 a st1 e2 st2 :
  op = DIV \/ op = REM ->
  evaluate host fuel env lhs st = (Returns (e1, Literal (PyInt a)), st1) ->
  evaluate host fuel env rhs st1 = (Returns (e2, Literal (PyInt 0)), st2) ->
  evaluate host (S fuel) env (Binary loc lhs op rhs) st = (Raises ZeroDivisionError, st2)
  /\ is_ExecutionError ZeroDivisionError = false.
Proof.
  intros Hop Hl Hr. split; [|reflexivity].
  rewrite (evaluate_Binary _ _ _ _ _ _ _ _ _ _ _ _ _ _ Hl Hr).
  destruct Hop as [-> | ->]; reflexivity.
Qed.

Lemma division_by_zero_raises_ZeroDivisionError_witness :
  evaluate (as_module id_run1) 2 0%nat (Binary here (Int here 7) DIV (Int here 0))
    initial_state = (Raises ZeroDivisionError, initial_state)
  /\ is_ExecutionError ZeroDivisionError = false.
Proof.
  apply (division_by_zero_raises_ZeroDivisionError
           (as_module id_run1) 1 0%nat here (Int here 7) DIV (Int here 0)
           initial_state 0%nat 7 initial_state 0%nat initial_state).
  - left; reflexivity.
  - reflexivity.
  - reflexivity.
Defined.

(** ** Conditionals *)

Lemma evaluate_If host fuel env loc condition then_ otherwise st e1 cond st1 :
  evaluate host fuel env condition st = (Returns (e1, cond), st1) ->
  evaluate host (S fuel) env (If loc condition then_ otherwise) st =
  match cond with
  | Literal (PyBool true) => evaluate host fuel env then_ st1
  | Literal (PyBool false) => evaluate host fuel env otherwise st1
  | _ => (Raises (ExecutionError "condition in 'if' is not boolean"), st1)
  end.
Proof.
  intros Hc. simpl. rewrite (bind_Returns _ _ _ _ _ Hc). simpl.
  destruct cond as [[n | s | [|]] | f e]; reflexivity.
Qed.

(** C2: when the condition of an [If] evaluates to a value that is not a
    boolean Literal (an integer or string Literal, or a Closure), the
    evaluation raises the [ExecutionError] "condition in 'if' is not
    boolean", the interpreter's type error, in the state reached after the
    condition: neither branch is evaluated. *)
Theorem if_condition_must_be_boolean
    host fuel env loc condition then_ otherwise st e1 cond st1 :
  evaluate host fuel env condition st = (Returns (e1, cond), st1) ->
  (forall b, cond <> Literal (PyBool b)) ->
  evaluate host (S fuel) env (If loc condition then_ otherwise) st =
  (Raises (ExecutionError "condition in 'if' is not boolean"), st1).
Proof.
  intros Hc Hnb. rewrite (evaluate_If _ _ _ _ _ _ _ _ _ _ _ Hc).
  destruct cond as [[n | s | b] | f e]; try reflexivity.
  now destruct (Hnb b).
Qed.

Lemma if_condition_must_be_boolean_witness :
  evaluate (as_module id_run1) 2 0%nat
    (If here (Int here 1) (Int here 10) (Int here 20)) initial_state =
  (Raises (ExecutionError "condition in 'if' is not boolean"), initial_state).
Proof.
  apply (if_condition_must_be_boolean (as_module id_run1) 1 0%nat here
           (Int here 1) (Int here 10) (Int here 20)
           initial_state 0%nat (Literal (PyInt 1)) initial_state).
  - reflexivity.
  - intros b. discriminate.
Defined.

(** ** Equality of Literals *)

(** C3, as stated, fails on [1 == true]: the integer Literal 1 and the
    boolean Literal [true] are equal for [==], and not different for [!=]. *)
Lemma int_equals_bool :
  let file op := mkFile here "main.rinha" (Binary here (Int here 1) op (Var here "true")) in
  returned (run_file (as_module id_run1) 1000 (file EQ)) = Some (Literal (PyBool true))
  /\ returned (run_file (as_module id_run1) 1000 (file NEQ)) = Some (Literal (PyBool false)).
Proof. vm_compute. auto. Qed.

Lemma Scalar_eq_true l r :
  Scalar_eq l r = true <->
  (exists s, l = PyStr s /\ r = PyStr s)
  \/ (exists n, as_int l = Some n /\ as_int r = Some n).
Proof.
  split.
  - destruct l as [a | a | a], r as [b | b | b]; unfold Scalar_eq; simpl; intros H;
      try discriminate;
      try (apply Z.eqb_eq in H; right; eexists; split; [reflexivity | now rewrite H]).
    apply String.eqb_eq in H. subst. left. eauto.
  - intros [(s & -> & ->) | (n & Hl & Hr)].
    + unfold Scalar_eq. simpl. apply String.eqb_refl.
    + unfold Scalar_eq, int_int. rewrite Hl, Hr. apply Z.eqb_refl.
Qed.

(** C3, amended: on two Literals [==] is Python's equality of the wrapped
    scalars and [!=] its negation. Two strings are equal iff they are the
    same string; integers and booleans are compared together as numbers,
    [true] counting as 1 and [false] as 0 (so [1 == true] holds); a string
    never equals a number. *)
Theorem literal_equality_is_python_equality
    host fuel env loc lhs rhs st e1 x st1 e2 y st2 :
  evaluate host fuel env lhs st = (Returns (e1, Literal x), st1) ->
  evaluate host fuel env rhs st1 = (Returns (e2, Literal y), st2) ->
  exists b,
    evaluate host (S fuel) env (Binary loc lhs EQ rhs) st =
      (Returns (env, Literal (PyBool b)), st2)
    /\ evaluate host (S fuel) env (Binary loc lhs NEQ rhs) st =
      (Returns (env, Literal (PyBool (negb b))), st2)
    /\ (b = true <->
        (exists s, x = PyStr s /\ y = PyStr s)
        \/ (exists n, as_int x = Some n /\ as_int y = Some n)).
Proof.
  intros Hl Hr. exists (Scalar_eq x y).
  rewrite !(evaluate_Binary _ _ _ _ _ _ _ _ _ _ _ _ _ _ Hl Hr).
  repeat split; try apply Scalar_eq_true.
Qed.

Lemma literal_equality_is_python_equality_witness :
  exists b,
    evaluate (as_module id_run1) 2 0%nat
      (Binary here (Int here 1) EQ (Str here "1")) initial_state =
      (Returns (0%nat, Literal (PyBool b)), initial_state)
    /\ evaluate (as_module id_run1) 2 0%nat
      (Binary here (Int here 1) NEQ (Str here "1")) initial_state =
      (Returns (0%nat, Literal (PyBool (negb b))), initial_state)
    /\ (b = true <->
        (exists s, PyInt 1 = PyStr s /\ PyStr "1" = PyStr s)
        \/ (exists n, as_int (PyInt 1) = Some n /\ as_int (PyStr "1") = Some n)).
Proof.
  apply (literal_equality_is_python_equality (as_module id_run1) 1 0%nat here
           (Int here 1) (Str here "1") initial_state
           0%nat (PyInt 1) initial_state 0%nat (PyStr "1") initial_state);
    reflexivity.
Defined.

(** ** Integer arithmetic *)

Lemma floor_division a b :
  b <> 0 -> a = b * (a / b) + a mod b /\ (0 <= a mod b < b \/ b < a mod b <= 0).
Proof.
  intros Hb. split.
  - apply Z.div_mod; assumption.
  - destruct (Z.lt_trichotomy b 0) as [Hn | [H0 | Hp]].
    + right. apply Z.mod_neg_bound; assumption.
    + contradiction.
    + left. apply Z.mod_pos_bound; assumption.
Qed.

(** C10: when the operands of [+], [-], [*], [/] or [%] evaluate to integer
    Literals, of any size, the result is the integer Literal holding the
    mathematical result, [/] being floor division and [%] its remainder
    (for a non-zero divisor); the integers are unbounded, so no width is
    involved and nothing wraps around. *)
Theorem integer_arithmetic_is_exact
    host fuel env loc lhs op rhs st e1 a st1 e2 b st2 :
  evaluate host fuel env lhs st = (Returns (e1, Literal (PyInt a)), st1) ->
  evaluate host fuel env rhs st1 = (Returns (e2, Literal (PyInt b)), st2) ->
  is_arithmetic op = true ->
  (is_division op = true -> b <> 0) ->
  exists z,
    evaluate host (S fuel) env (Binary loc lhs op rhs) st =
      (Returns (env, Literal (PyInt z)), st2)
    /\ exact_result op a b z.
Proof.
  intros Hl Hr Hop Hb.
  rewrite (evaluate_Binary _ _ _ _ _ _ _ _ _ _ _ _ _ _ Hl Hr).
  destruct op; try discriminate Hop; cbn.
  - eexists; split; reflexivity.
  - eexists; split; reflexivity.
  - eexists; split; reflexivity.
  - specialize (Hb eq_refl). unfold floordiv.
    destruct (Z.eqb_spec b 0) as [-> | _]; [contradiction|].
    eexists; split; [reflexivity|]. exists (a mod b). now apply floor_division.
  - specialize (Hb eq_refl). unfold pymod.
    destruct (Z.eqb_spec b 0) as [-> | _]; [contradiction|].
    eexists; split; [reflexivity|]. exists (a / b). now apply floor_division.
Qed.

Lemma integer_arithmetic_is_exact_witness :
  exists z,
    evaluate (as_module id_run1) 2 0%nat
      (Binary here (Int here (-(2 ^ 200) - 1)) DIV (Int here (2 ^ 100))) initial_state =
      (Returns (0%nat, Literal (PyInt z)), initial_state)
    /\ exact_result DIV (-(2 ^ 200) - 1) (2 ^ 100) z.
Proof.
  apply (integer_arithmetic_is_exact (as_module id_run1) 1 0%nat here
           (Int here (-(2 ^ 200) - 1)) DIV (Int here (2 ^ 100))
           initial_state 0%nat (-(2 ^ 200) - 1) initial_state
           0%nat (2 ^ 100) initial_state).
  - reflexivity.
  - reflexivity.
  - reflexivity.
  - intros _. vm_compute. discriminate.
Defined.

(** ** Let, closures and recursion *)

Lemma insert_last {A} (l : list A) (x y : A) :
  <[length l := y]> (l ++ [x])%list = (l ++ [y])%list.
Proof. induction l; simpl; [reflexivity | now f_equal]. Qed.

Lemma lookup_total_last {A} `{Inhabited A} (l : list A) (x : A) :
  (l ++ [x])%list !!! length l = x.
Proof.
  apply list_lookup_total_correct.
  rewrite lookup_app_r by lia. now rewrite Nat.sub_diag.
Qed.

Lemma evaluate_Let host fuel env loc name value next st e1 val st1 :
  evaluate host fuel env value st = (Returns (e1, val), st1) ->
  evaluate host (S fuel) env (Let loc name value next) st =
  evaluate host fuel (length (envs st1)) next
    {| envs := (envs st1 ++
                [<[text name := rebound (length (envs st1)) val]> (envs st1 !!! env)])%list;
       stdout := stdout st1 |}.
Proof.
  intros Hv. simpl. rewrite (bind_Returns _ _ _ _ _ Hv). simpl.
  unfold with_values, values, new_Env, setitem, mbind, mret, Eval_bind, Eval_ret. simpl.
  destruct val as [x | function f_env]; simpl.
  - now rewrite insert_union_singleton_l.
  - rewrite insert_last, lookup_total_last.
    now rewrite <- insert_union_singleton_l, insert_insert_eq.
Qed.

(** C4: when the value of a [Let] evaluates to a Closure, [next] is
    evaluated in a new Env [next_env] that extends the current one and in
    which the bound name holds that closure with [next_env] itself as its
    captured Env, so that the body finds its own name; and the factorial
    program [let f = fn (n) => if n == 0 {1} else {n * f(n - 1)}; f(5)]
    yields [Literal 120] as soon as the recursion limit allows 20 nested
    calls of [evaluate]. *)
Theorem let_rebinds_closure_to_extended_env
    host fuel env loc name value next st e1 function f_env st1 n :
  evaluate host fuel env value st = (Returns (e1, Closure function f_env), st1) ->
  let next_env := length (envs st1) in
  let st2 :=
    {| envs := (envs st1 ++
                [<[text name := Closure function next_env]> (envs st1 !!! env)])%list;
       stdout := stdout st1 |} in
  evaluate host (S fuel) env (Let loc name value next) st =
    evaluate host fuel next_env next st2
  /\ (envs st2 !!! next_env) !! text name = Some (Closure function next_env)
  /\ (forall x, x <> text name ->
        (envs st2 !!! next_env) !! x = (envs st1 !!! env) !! x)
  /\ returned (run_file host (20 + n) factorial_program) = Some (Literal (PyInt 120)).
Proof.
  intros Hv next_env st2. split; [|split; [|split]].
  - apply (evaluate_Let _ _ _ _ _ _ _ _ _ _ _ Hv).
  - unfold st2, next_env. simpl. rewrite lookup_total_last. apply lookup_insert_eq.
  - intros x Hx. unfold st2, next_env. simpl. rewrite lookup_total_last.
    now apply lookup_insert_ne.
  - vm_compute. reflexivity.
Qed.

Lemma let_rebinds_closure_to_extended_env_witness :
  let globals := snd (global_env initial_state) in
  let st2 :=
    {| envs := (envs globals ++
                [<["id" := Closure identity_function 1%nat]> (envs globals !!! 0%nat)])%list;
       stdout := stdout globals |} in
  evaluate (as_module id_run1) 2 0%nat
    (Let here (mkSymbol here "id") (FunctionTerm identity_function) (Var here "id"))
    globals = evaluate (as_module id_run1) 1 1%nat (Var here "id") st2
  /\ (envs st2 !!! 1%nat) !! "id" = Some (Closure identity_function 1%nat)
  /\ (forall x, x <> "id" -> (envs st2 !!! 1%nat) !! x = (envs globals !!! 0%nat) !! x)
  /\ returned (run_file (as_module id_run1) (20 + 0) factorial_program) =
     Some (Literal (PyInt 120)).
Proof.
  apply (let_rebinds_closure_to_extended_env (as_module id_run1) 1 0%nat here
           (mkSymbol here "id") (FunctionTerm identity_function) (Var here "id")
           (snd (global_env initial_state)) 0%nat identity_function 0%nat
           (snd (global_env initial_state)) 0%nat).
  reflexivity.
Defined.

(** C5: a [Function] term evaluates to a Closure holding the Env of its
    definition site, and [let x = 1; let f = fn () => x; let x = 2; f()]
    yields [Literal 1]; but the closure does not keep that Env. A [Let]
    that binds a closure puts the Env of the [Let] in the place of the Env
    the closure had captured, whatever that was. So in
    [let x = 1; let f = fn () => x; let x = 2; let g = f; g()] the later
    [let x = 2] does reach the closure, and the program yields [Literal 2];
    and in [let f = (let y = 5; fn () => y); f()] the captured [y] is lost,
    and the call raises "unknown variable 'y'". *)
Theorem let_replaces_the_captured_env host fuel env loc name value next function st n :
  evaluate host (S fuel) env (FunctionTerm function) st =
    (Returns (env, Closure function env), st)
  /\ match evaluate host fuel env value st with
     | (Returns (_, Closure function' f_env), st1) =>
         evaluate host (S fuel) env (Let loc name value next) st =
         evaluate host fuel (length (envs st1)) next
           {| envs := (envs st1 ++
                       [<[text name := Closure function' (length (envs st1))]>
                          (envs st1 !!! env)])%list;
              stdout := stdout st1 |}
     | _ => True
     end
  /\ returned (run_file host (5 + n) capture_program) = Some (Literal (PyInt 1))
  /\ returned (run_file host (6 + n) rebound_capture_program) = Some (Literal (PyInt 2))
  /\ raised (run_file host (3 + n) escaping_closure_program) =
     Some (ExecutionError "unknown variable 'y'").
Proof.
  split; [reflexivity|]. split.
  - destruct (evaluate host fuel env value st) as [[[e1 [x | function' f_env]] | ex] st1]
      eqn:E; try exact I.
    apply (evaluate_Let _ _ _ _ _ _ _ _ _ _ _ E).
  - repeat split; vm_compute; reflexivity.
Qed.

(** ** The store only grows *)

Lemma extends_bind {A B} (m : Eval A) (f : A -> Eval B) :
  extends m -> (forall a, extends (f a)) -> extends (m ≫= f).
Proof.
  intros Hm Hf st r st'. unfold mbind, Eval_bind.
  destruct (m st) as [[a | e] st1] eqn:E; intros H.
  - etransitivity; [apply (Hm _ _ _ E) | apply (Hf _ _ _ _ H)].
  - inversion H; subst. apply (Hm _ _ _ E).
Qed.

Lemma extends_pure {A} (o : Outcome A) : extends (lift o).
Proof. intros st r st' H. inversion H. reflexivity. Qed.

Lemma extends_bind_parameters (evaluate_arg : Term -> Eval (addr * Value))
    parameters arguments params :
  (forall arg, extends (evaluate_arg arg)) ->
  extends (bind_parameters evaluate_arg parameters arguments params).
Proof.
  intros Hev. revert arguments params.
  induction parameters as [| param parameters IH]; intros [| arg arguments] params;
    simpl; try apply (extends_pure (Returns params)).
  apply extends_bind; [apply Hev|]. intros [e v]. apply IH.
Qed.

Lemma extends_evaluate host fuel : forall env term, extends (evaluate host fuel env term).
Proof.
  induction fuel as [| fuel IH]; intros env term.
  - apply (extends_pure (Raises RecursionError)).
  - destruct term as [loc name value next | function | loc condition then_ otherwise
                       | loc lhs op rhs | loc callee arguments | loc value
                       | loc text | loc value | loc value]; simpl.
    + intros st r st'.
      destruct (evaluate host fuel env value st) as [[[e1 val] | e] st1] eqn:E.
      * change (evaluate host (S fuel) env (Let loc name value next) st = (r, st')
                -> envs st `prefix_of` envs st').
        rewrite (evaluate_Let _ _ _ _ _ _ _ _ _ _ _ E). intros H.
        etransitivity; [apply (IH _ _ _ _ _ E)|].
        etransitivity; [|apply (IH _ _ _ _ _ H)]. simpl. now apply prefix_app_r.
      * rewrite (bind_Raises _ _ _ _ _ E). intros H. inversion H; subst.
        apply (IH _ _ _ _ _ E).
    + apply (extends_pure (Returns (env, Closure function env))).
    + apply extends_bind; [apply IH|]. intros [e [[n | s | [|]] | f fe]];
        try apply IH; apply (extends_pure (Raises _)).
    + apply extends_bind; [apply IH|]. intros [e l].
      apply extends_bind; [apply IH|]. intros [e' r].
      apply extends_bind; [apply extends_pure|]. intros v.
      apply (extends_pure (Returns (env, v))).
    + apply extends_bind; [apply IH|]. intros [e [x | function f_env]].
      * apply extends_pure.
      * destruct (negb _); [apply extends_pure|].
        apply extends_bind; [apply extends_bind_parameters; intros; apply IH|].
        intros params. apply extends_bind; [|intros; apply IH].
        intros st r st' H. inversion H. now apply prefix_app_r.
    + apply extends_bind; [apply IH|]. intros [e val].
      apply extends_bind; [apply extends_pure|]. intros s.
      apply extends_bind; [|intros; apply (extends_pure (Returns (env, val)))].
      intros st r st' H. inversion H. reflexivity.
    + intros st r st'. unfold mbind, Eval_bind, values. simpl.
      destruct (_ !! _); intros H; inversion H; reflexivity.
    + apply (extends_pure (Returns (env, Literal (PyInt value)))).
    + apply (extends_pure (Returns (env, Literal (PyStr value)))).
Qed.

(** ** Equations for calls *)

Lemma not_callable_Raises host A x : exists e, @not_callable host A x = Raises e.
Proof.
  unfold not_callable, mbind, Outcome_bind. destruct (Literal_str host x); eauto.
Qed.

Lemma wrong_arity_Raises host A fuel function arguments :
  exists e, @wrong_arity host A fuel function arguments = Raises e.
Proof.
  unfold wrong_arity, mbind, Outcome_bind.
  destruct (Function_render host fuel function); [|eauto].
  destruct (int_str host _); eauto.
Qed.

Lemma evaluate_Call host fuel env loc callee arguments st e1 f st1 :
  evaluate host fuel env callee st = (Returns (e1, f), st1) ->
  evaluate host (S fuel) env (Call loc callee arguments) st =
  match f with
  | Literal x => (not_callable host x, st1)
  | Closure function f_env =>
      if negb (length arguments =? length (Function_parameters function))%nat then
        (wrong_arity host fuel function arguments, st1)
      else
        (params ← bind_parameters (evaluate host fuel env)
                   (Function_parameters function) arguments ∅;
         call_env ← with_values f_env params;
         evaluate host fuel call_env (Function_value function)) st1
  end.
Proof.
  intros Hc. simpl. rewrite (bind_Returns _ _ _ _ _ Hc). simpl.
  destruct f as [x | function f_env]; [reflexivity|].
  now destruct (negb _).
Qed.

Lemma bind_parameters_in_order evaluate_arg parameters :
  forall arguments params st,
    length arguments = length parameters ->
    bind_parameters evaluate_arg parameters arguments params st =
    (values ← evaluate_in_order evaluate_arg arguments;
     mret (bound parameters values params)) st.
Proof.
  induction parameters as [| param parameters IH]; intros [| arg arguments] params st Hlen;
    try discriminate; [reflexivity|].
  simpl. unfold mbind, Eval_bind.
  destruct (evaluate_arg arg st) as [[[e v] | ex] st1]; [|reflexivity].
  rewrite IH by (simpl in Hlen; lia).
  unfold mbind, Eval_bind.
  destruct (evaluate_in_order evaluate_arg arguments st1) as [[vs | ex] st2]; reflexivity.
Qed.

Lemma bound_other parameters : forall values params x,
  x ∉ text <$> parameters -> bound parameters values params !! x = params !! x.
Proof.
  unfold bound.
  induction parameters as [| p parameters IH]; intros [| v values] params x Hx;
    try reflexivity.
  simpl. rewrite fmap_cons in Hx. apply not_elem_of_cons in Hx as [Hp Hx].
  rewrite (IH values _ x Hx). now apply lookup_insert_ne.
Qed.

Lemma bound_positional parameters : forall values params i p v,
  NoDup (text <$> parameters) ->
  parameters !! i = Some p -> values !! i = Some v ->
  bound parameters values params !! text p = Some v.
Proof.
  induction parameters as [| q parameters IH]; intros [| w values] params i p v Hnd Hp Hv;
    try discriminate.
  rewrite fmap_cons in Hnd. apply NoDup_cons in Hnd as [Hq Hnd].
  destruct i as [| i]; simpl in Hp, Hv.
  - inversion Hp; inversion Hv; subst.
    change (bound parameters values (<[text p := v]> params) !! text p = Some v).
    rewrite bound_other by assumption. apply lookup_insert_eq.
  - apply (IH values _ i p v Hnd Hp Hv).
Qed.

(** ** The Env returned by [evaluate] *)

(** C6, as stated, fails on [let x = 1; x] evaluated in the initial Env
    (address 0): the Env returned is the new one (address 1), which binds
    [x], and not the Env passed in, which does not. *)
Lemma let_returns_the_extended_env :
  let globals := snd (global_env initial_state) in
  let r := evaluate (as_module id_run1) 1000 0%nat
             (Let here (mkSymbol here "x") (Int here 1) (Var here "x")) globals in
  fst r = Returns (1%nat, Literal (PyInt 1))
  /\ (envs (snd r) !!! 0%nat) !! "x" = None
  /\ (envs (snd r) !!! 1%nat) !! "x" = Some (Literal (PyInt 1)).
Proof. vm_compute. auto. Qed.

(** C6, amended: when [evaluate] succeeds, every Env of the store it
    started from, the input Env among them, has kept its bindings; the Env
    returned is the input Env for [Int], [Str], [Var], [Function], [Binary]
    and [Print]; for [If] it is the Env returned by the branch that the
    value of the condition selects, evaluated in the state the condition
    left; for [Let] it is the Env returned by [next] evaluated in the Env
    newly created to bind the name; for [Call] it is the Env returned by the
    body of the closure the callee evaluated to, evaluated in the Env newly
    created from the closure's Env and the values of the arguments. *)
Theorem evaluate_returned_env host fuel env term st e v st' :
  evaluate host (S fuel) env term st = (Returns (e, v), st') ->
  envs st `prefix_of` envs st'
  /\ match term with
     | Let _ name value next =>
         exists e1 val st1,
           evaluate host fuel env value st = (Returns (e1, val), st1)
           /\ (length (envs st) <= length (envs st1))%nat
           /\ evaluate host fuel (length (envs st1)) next
                {| envs := (envs st1 ++
                            [<[text name := rebound (length (envs st1)) val]>
                               (envs st1 !!! env)])%list;
                   stdout := stdout st1 |} = (Returns (e, v), st')
     | Call _ callee arguments =>
         exists e1 function f_env st1 vs st2,
           evaluate host fuel env callee st =
             (Returns (e1, Closure function f_env), st1)
           /\ length arguments = length (Function_parameters function)
           /\ evaluate_in_order (evaluate host fuel env) arguments st1 =
              (Returns vs, st2)
           /\ (length (envs st) <= length (envs st2))%nat
           /\ evaluate host fuel (length (envs st2)) (Function_value function)
                {| envs := (envs st2 ++
                            [bound (Function_parameters function) vs ∅
                             ∪ (envs st2 !!! f_env)])%list;
                   stdout := stdout st2 |} = (Returns (e, v), st')
     | If _ condition then_ otherwise =>
         exists e1 b st1,
           evaluate host fuel env condition st =
             (Returns (e1, Literal (PyBool b)), st1)
           /\ evaluate host fuel env (if b then then_ else otherwise) st1 =
              (Returns (e, v), st')
     | _ => e = env
     end.
Proof.
  intros H. split; [apply (extends_evaluate _ _ _ _ _ _ _ H)|].
  destruct term as [loc name value next | function | loc condition then_ otherwise
                   | loc lhs op rhs | loc callee arguments | loc value
                   | loc text | loc value | loc value].
  - destruct (evaluate host fuel env value st) as [[[e1 val] | ex] st1] eqn:E.
    + rewrite (evaluate_Let _ _ _ _ _ _ _ _ _ _ _ E) in H.
      exists e1, val, st1. split; [reflexivity|]. split; [|exact H].
      apply prefix_length, (extends_evaluate _ _ _ _ _ _ _ E).
    + simpl in H. rewrite (bind_Raises _ _ _ _ _ E) in H. discriminate.
  - inversion H. reflexivity.
  - destruct (evaluate host fuel env condition st) as [[[e1 cond] | ex] st1] eqn:E.
    + rewrite (evaluate_If _ _ _ _ _ _ _ _ _ _ _ E) in H.
      destruct cond as [[n | s | b] | f fe]; try discriminate.
      exists e1, b, st1. split; [reflexivity|]. now destruct b.
    + simpl in H. rewrite (bind_Raises _ _ _ _ _ E) in H. discriminate.
  - simpl in H. unfold mbind, Eval_bind in H.
    destruct (evaluate host fuel env lhs st) as [[[e1 l] | ex] st1]; [|discriminate].
    destruct (evaluate host fuel env rhs st1) as [[[e2 r] | ex] st2]; [|discriminate].
    unfold lift in H. destruct (binary host op l r); inversion H. reflexivity.
  - destruct (evaluate host fuel env callee st) as [[[e1 f] | ex] st1] eqn:E.
    + rewrite (evaluate_Call _ _ _ _ _ _ _ _ _ _ E) in H.
      destruct f as [x | function f_env].
      { destruct (not_callable_Raises host (addr * Value) x) as [ex Hx].
        rewrite Hx in H. discriminate. }
      destruct (Nat.eqb_spec (length arguments) (length (Function_parameters function)))
        as [Hlen | Hlen]; simpl in H.
      2: { destruct (wrong_arity_Raises host (addr * Value) fuel function arguments)
             as [ex Hx]. rewrite Hx in H. discriminate. }
      pose proof (bind_parameters_in_order (evaluate host fuel env)
                    (Function_parameters function) arguments ∅ st1 Hlen) as Hb.
      destruct (evaluate_in_order (evaluate host fuel env) arguments st1)
        as [[vs | ex] st2] eqn:Ha.
      * rewrite (bind_Returns _ _ _ _ _ Ha) in Hb.
        rewrite (bind_Returns _ _ _ _ _ Hb) in H.
        exists e1, function, f_env, st1, vs, st2.
        repeat (split; [reflexivity || assumption|]). split; [|exact H].
        etransitivity; [apply prefix_length, (extends_evaluate _ _ _ _ _ _ _ E)|].
        apply prefix_length.
        apply (extends_bind_parameters _ _ _ _ (extends_evaluate host fuel env) _ _ _ Hb).
      * rewrite (bind_Raises _ _ _ _ _ Ha) in Hb.
        rewrite (bind_Raises _ _ _ _ _ Hb) in H. discriminate.
    + simpl in H. rewrite (bind_Raises _ _ _ _ _ E) in H. discriminate.
  - simpl in H. unfold mbind, Eval_bind in H.
    destruct (evaluate host fuel env value st) as [[[e1 val] | ex] st1]; [|discriminate].
    unfold lift in H. destruct (Value_str host val); inversion H. reflexivity.
  - simpl in H. unfold mbind, Eval_bind, values in H. simpl in H.
    destruct (_ !! _); inversion H. reflexivity.
  - inversion H. reflexivity.
  - inversion H. reflexivity.
Qed.

Lemma evaluate_returned_env_witness :
  let globals := snd (global_env initial_state) in
  let term :=
    Call here (FunctionTerm identity_function)
      [If here (Var here "true") (Int here 7) (Int here 8)] in
  let st' := snd (evaluate (as_module id_run1) 3 0%nat term globals) in
  envs globals `prefix_of` envs st'
  /\ exists e1 function f_env st1 vs st2,
       evaluate (as_module id_run1) 2 0%nat (FunctionTerm identity_function) globals =
         (Returns (e1, Closure function f_env), st1)
       /\ length [If here (Var here "true") (Int here 7) (Int here 8)] =
          length (Function_parameters function)
       /\ evaluate_in_order (evaluate (as_module id_run1) 2 0%nat)
            [If here (Var here "true") (Int here 7) (Int here 8)] st1 =
          (Returns vs, st2)
       /\ (length (envs globals) <= length (envs st2))%nat
       /\ evaluate (as_module id_run1) 2 (length (envs st2)) (Function_value function)
            {| envs := (envs st2 ++
                        [bound (Function_parameters function) vs ∅
                         ∪ (envs st2 !!! f_env)])%list;
               stdout := stdout st2 |} = (Returns (1%nat, Literal (PyInt 7)), st').
Proof.
  apply (evaluate_returned_env (as_module id_run1) 2 0%nat
           (Call here (FunctionTerm identity_function)
              [If here (Var here "true") (Int here 7) (Int here 8)])
           (snd (global_env initial_state)) 1%nat (Literal (PyInt 7))).
  reflexivity.
Defined.

(** ** Rendering a Closure *)

(** C7: [Closure.__str__] does not read the closure's parameters but the
    name [args], which the module binds only when it runs as a script.
    Rendering the closure of [fn (a) => a] raises [NameError] in the
    imported module, so that [print (fn (a) => a)] fails there; run as a
    script it gives the tag followed by the parsed command line, not by the
    parameter [a]. *)
Theorem Closure_str_reads_args_not_parameters :
  (forall host function env,
      Closure_str host (Closure function env) =
      match args host with
      | None => Raises (NameError "args")
      | Some a =>
          Returns ("<Closure#" +:+ tag (id host) (Closure function env)
                   +:+ " fn (" +:+ a +:+ ")>")
      end)
  /\ Closure_str (as_module id_run1) (Closure identity_function 0%nat) =
     Raises (NameError "args")
  /\ raised (run_file (as_module id_run1) 1000 print_closure_program) =
     Some (NameError "args")
  /\ Closure_str (as_script id_run1) (Closure identity_function 0%nat) =
     Returns "<Closure#a3cd90 fn (Namespace(file=PosixPath('main.json')))>".
Proof.
  split; [intros host function env; unfold Closure_str, tag; now destruct (args host)|].
  vm_compute. auto.
Qed.

(** ** Parentheses in the rendering of a Binary *)

Lemma precedence_below_99 op : (99 <? precedence (BinaryOp_value op)) = false.
Proof. destruct op; reflexivity. Qed.

Lemma side_precedence_wrapped op side :
  (side_precedence side <? precedence (BinaryOp_value op)) = wrapped op side.
Proof.
  destruct side; unfold wrapped; simpl; try apply precedence_below_99; reflexivity.
Qed.

(** C8: in the rendering of [Binary(lhs, op, rhs)] each side is put in
    parentheses iff it is itself a [Binary] whose operator has a precedence
    strictly less than that of [op]; a side that is not a [Binary] is never
    put in parentheses. *)
Theorem Binary_str_wraps_lower_precedence_sides repr indent loc lhs op rhs :
  Term_str repr indent (Binary loc lhs op rhs) =
    in_parentheses_if (wrapped op lhs) (Term_str repr indent lhs)
    +:+ " " +:+ token (BinaryOp_value op) +:+ " "
    +:+ in_parentheses_if (wrapped op rhs) (Term_str repr indent rhs)
  /\ (forall side,
        wrapped op side = true <->
        exists loc' lhs' op' rhs',
          side = Binary loc' lhs' op' rhs'
          /\ precedence (BinaryOp_value op') < precedence (BinaryOp_value op)).
Proof.
  split.
  - simpl. rewrite !side_precedence_wrapped. reflexivity.
  - intros side. split.
    + destruct side; unfold wrapped; simpl; try discriminate.
      intros H. apply Z.ltb_lt in H. eauto 6.
    + intros (loc' & lhs' & op' & rhs' & -> & H). unfold wrapped. simpl.
      now apply Z.ltb_lt.
Qed.

(** ** Determinism *)


Section Two_runs.

(** Two runs of the same module: they differ only by where the runtime
    places the closures. *)
Variable host : Host.
Variables id1 id2 : Value -> Z.

Hypothesis same_tags :
  forall function env, tag id1 (Closure function env) = tag id2 (Closure function env).








End Two_runs.




(** ** Extending an Env *)

(** [with_values] allocates a new Env, returned by its address, that holds
    every binding of [extra] and, for the names [extra] does not bind, what
    the receiver holds; the Envs that existed before, the receiver among
    them, are left as they were. *)
Theorem with_values_bindings self extra st :
  exists d,
    with_values self extra st =
      (Returns (length (envs st)),
       {| envs := (envs st ++ [d])%list; stdout := stdout st |})
    /\ (forall x v, extra !! x = Some v -> d !! x = Some v)
    /\ (forall x, extra !! x = None -> d !! x = (envs st !!! self) !! x)
    /\ (forall a, (a < length (envs st))%nat ->
          (envs st ++ [d])%list !! a = envs st !! a).
Proof.
  exists (extra ∪ (envs st !!! self)). split; [reflexivity|]. split; [|split].
  - intros x v Hx. now apply lookup_union_Some_l.
  - intros x Hx. now apply lookup_union_r.
  - intros a Ha. now apply lookup_app_l.
Qed.

Lemma with_values_bindings_witness :
  let globals := snd (global_env initial_state) in
  let extra : gmap string Value := {[ "true" := Literal (PyInt 1) ]} in
  exists d,
    with_values 0%nat extra globals =
      (Returns (length (envs globals)),
       {| envs := (envs globals ++ [d])%list; stdout := stdout globals |})
    /\ (forall x v, extra !! x = Some v -> d !! x = Some v)
    /\ (forall x, extra !! x = None -> d !! x = (envs globals !!! 0%nat) !! x)
    /\ (forall a, (a < length (envs globals))%nat ->
          (envs globals ++ [d])%list !! a = envs globals !! a).
Proof.
  exact (with_values_bindings 0%nat {[ "true" := Literal (PyInt 1) ]}
           (snd (global_env initial_state))).
Defined.

(** ** The operator table *)

Lemma int_int_Some l r a b :
  int_int l r = Some (a, b) -> as_int l = Some a /\ as_int r = Some b.
Proof.
  unfold int_int. destruct (as_int l), (as_int r); intros H; inversion H; auto.
Qed.

Lemma on_Some {A} tok tok' (o : option A) x :
  on tok tok' o = Some x -> tok = tok' /\ o = Some x.
Proof.
  unfold on. destruct (String.eqb_spec tok tok'); [auto | discriminate].
Qed.

Lemma division_answer host tok l r a b (f : Z -> Z -> Z) :
  (tok = "/" \/ tok = "%") -> int_int l r = Some (a, b) ->
  table_answer host tok l r
    (if b =? 0 then Raises ZeroDivisionError else Returns (Literal (PyInt (f a b)))).
Proof.
  intros Htok H. apply int_int_Some in H as [Hl Hr].
  destruct (Z.eqb_spec b 0) as [-> | _].
  - right; left. repeat split; auto. now rewrite Hl.
  - left. eauto.
Qed.

Lemma int_str_cases host n :
  (int_str host n = Returns (str_int n)
   /\ ~ 0 < int_max_str_digits host < decimal_digits n)
  \/ (int_str host n = Raises ValueError
      /\ 0 < int_max_str_digits host < decimal_digits n).
Proof.
  unfold int_str.
  destruct (Z.ltb_spec 0 (int_max_str_digits host)),
    (Z.ltb_spec (int_max_str_digits host) (decimal_digits n)); simpl;
    [right | left | left | left]; split; auto; lia.
Qed.

Lemma Literal_str_cases host x :
  (exists s, Literal_str host x = Returns s)
  \/ (Literal_str host x = Raises ValueError /\ too_long host x).
Proof.
  destruct x as [n | s | b]; simpl; eauto.
  destruct (int_str_cases host n) as [[H _] | [H Hn]]; [eauto|].
  right. split; [assumption|]. exists n. auto.
Qed.

Lemma invalid_operands_answer host tok l r :
  table_answer host tok l r (invalid_operands host tok (Literal l) (Literal r)).
Proof.
  unfold invalid_operands, mbind, Outcome_bind. simpl.
  destruct (Literal_str_cases host l) as [[sl Hl] | [Hl Hlong]]; rewrite Hl.
  - destruct (Literal_str_cases host r) as [[sr Hr] | [Hr Hlong]]; rewrite Hr.
    + right; right; left. eauto.
    + right; right; right. auto.
  - right; right; right. auto.
Qed.

(** On two Literals the operator table always answers with a Literal,
    never a Closure; or, for [/] and [%] on numbers with a zero divisor
    only, with Python's [ZeroDivisionError]; or, for operands it does not
    admit, with the [ExecutionError] "Invalid operands for ..." that shows
    both, unless one of them is an integer too long for [str], which then
    raises [ValueError] while the message is built. It never reads the name
    [args]. *)
Theorem operate_answers host tok l r :
  table_answer host tok l r (operate host tok l r).
Proof.
  unfold operate.
  repeat lazymatch goal with
         | |- table_answer _ _ _ _ (match ?o with Some _ => _ | None => _ end) =>
             destruct o as [[a b] |] eqn:?;
             [try (left; eexists; reflexivity) |]
         end.
  - apply on_Some in Heqo3 as [-> H]. apply (division_answer _ _ _ _ _ _ Z.div); auto.
  - apply on_Some in Heqo4 as [-> H]. apply (division_answer _ _ _ _ _ _ Z.modulo); auto.
  - apply invalid_operands_answer.
Qed.

(** Booleans are numbers for the arithmetic and ordering operators: on
    any two operands that are integer or boolean Literals, with [true]
    counted as 1 and [false] as 0, [+], [-] and [*] give the integer result
    (so [true + true] is the integer 2) and [<], [>], [<=], [>=] give the
    boolean comparison of the two numbers. *)
Theorem numeric_operators_take_booleans host op l r a b x :
  as_int l = Some a -> as_int r = Some b ->
  numeric_result op a b = Some x ->
  binary host op (Literal l) (Literal r) = Returns (Literal x).
Proof.
  intros Hl Hr Hx. unfold binary, operate, int_int. rewrite Hl, Hr.
  destruct op; inversion Hx; subst; try reflexivity.
  all: simpl; destruct l, r; simpl in *; try discriminate; reflexivity.
Qed.

Lemma numeric_operators_take_booleans_witness :
  binary (as_module id_run1) ADD (Literal (PyBool true)) (Literal (PyBool true)) =
  Returns (Literal (PyInt 2)).
Proof.
  apply (numeric_operators_take_booleans (as_module id_run1) ADD
           (PyBool true) (PyBool true) 1 1 (PyInt 2)); reflexivity.
Defined.

Lemma ltb_leb_string a b : String.leb b a = negb (String.ltb a b).
Proof.
  unfold String.leb, String.ltb. rewrite (String.compare_antisym a b).
  now destruct (String.compare b a).
Qed.

(** The ordering operators agree with one another on two numbers and on
    two strings: [>=] is the negation of [<], [<=] is the negation of [>],
    and [>] is [<] with the operands exchanged. *)
Theorem ordering_operators_agree host l r :
  comparable l r = true ->
  exists c d,
    binary host LT (Literal l) (Literal r) = Returns (Literal (PyBool c))
    /\ binary host GTE (Literal l) (Literal r) = Returns (Literal (PyBool (negb c)))
    /\ binary host GT (Literal l) (Literal r) = Returns (Literal (PyBool d))
    /\ binary host LTE (Literal l) (Literal r) = Returns (Literal (PyBool (negb d)))
    /\ binary host LT (Literal r) (Literal l) = Returns (Literal (PyBool d)).
Proof.
  unfold comparable, binary, operate.
  destruct (int_int l r) as [[a b] |] eqn:Hi.
  - intros _. apply int_int_Some in Hi as [Hl Hr].
    exists (a <? b), (b <? a). unfold int_int. rewrite Hl, Hr. simpl.
    rewrite !Z.leb_antisym. repeat split; reflexivity.
  - destruct (str_str l r) as [[a b] |] eqn:Hs; [intros _ | discriminate].
    destruct l, r; try discriminate. inversion Hs; subst.
    exists (String.ltb a b), (String.ltb b a). simpl.
    rewrite !ltb_leb_string. repeat split; reflexivity.
Qed.

Lemma ordering_operators_agree_witness :
  exists c d,
    binary (as_module id_run1) LT (Literal (PyStr "ab")) (Literal (PyStr "b")) =
      Returns (Literal (PyBool c))
    /\ binary (as_module id_run1) GTE (Literal (PyStr "ab")) (Literal (PyStr "b")) =
      Returns (Literal (PyBool (negb c)))
    /\ binary (as_module id_run1) GT (Literal (PyStr "ab")) (Literal (PyStr "b")) =
      Returns (Literal (PyBool d))
    /\ binary (as_module id_run1) LTE (Literal (PyStr "ab")) (Literal (PyStr "b")) =
      Returns (Literal (PyBool (negb d)))
    /\ binary (as_module id_run1) LT (Literal (PyStr "b")) (Literal (PyStr "ab")) =
      Returns (Literal (PyBool d)).
Proof.
  apply (ordering_operators_agree (as_module id_run1) (PyStr "ab") (PyStr "b")).
  reflexivity.
Defined.

Lemma binary_operands_are_both_evaluated_aux host fuel env loc lhs op rhs st :
  evaluate host (S fuel) env (Binary loc lhs op rhs) st =
  match evaluate host fuel env lhs st with
  | (Raises e, st1) => (Raises e, st1)
  | (Returns (_, l), st1) =>
      match evaluate host fuel env rhs st1 with
      | (Raises e, st2) => (Raises e, st2)
      | (Returns (_, r), st2) => (v ← binary host op l r; mret (env, v), st2)
      end
  end.
Proof.
  destruct (evaluate host fuel env lhs st) as [[[e1 l] | e] st1] eqn:Hl.
  - destruct (evaluate host fuel env rhs st1) as [[[e2 r] | e] st2] eqn:Hr.
    + apply (evaluate_Binary _ _ _ _ _ _ _ _ _ _ _ _ _ _ Hl Hr).
    + simpl. rewrite (bind_Returns _ _ _ _ _ Hl). simpl.
      apply (bind_Raises _ _ _ _ _ Hr).
  - simpl. apply (bind_Raises _ _ _ _ _ Hl).
Qed.

(** A [Binary] evaluates its left operand, then its right operand, and
    only then looks at the operator: an exception raised by either operand
    is the outcome of the whole term, in the state where it was raised.
    No operator skips its right operand, so [&] and [|] do not
    short-circuit. *)
Theorem binary_operands_are_both_evaluated host fuel env loc lhs op rhs st :
  match evaluate host fuel env lhs st with
  | (Raises e, st1) =>
      evaluate host (S fuel) env (Binary loc lhs op rhs) st = (Raises e, st1)
  | (Returns (_, l), st1) =>
      match evaluate host fuel env rhs st1 with
      | (Raises e, st2) =>
          evaluate host (S fuel) env (Binary loc lhs op rhs) st = (Raises e, st2)
      | (Returns (_, r), st2) =>
          evaluate host (S fuel) env (Binary loc lhs op rhs) st =
          (v ← binary host op l r; mret (env, v), st2)
      end
  end.
Proof.
  rewrite (binary_operands_are_both_evaluated_aux host fuel env loc lhs op rhs st).
  destruct (evaluate host fuel env lhs st) as [[[e1 l] | e] st1]; [|reflexivity].
  destruct (evaluate host fuel env rhs st1) as [[[e2 r] | e] st2]; reflexivity.
Qed.

(** ** Rendering *)

Lemma append_assoc (a b c : string) : (a +:+ b) +:+ c = a +:+ b +:+ c.
Proof.
  induction a as [| x a IH]; [reflexivity|].
  change (String x ((a +:+ b) +:+ c) = String x (a +:+ b +:+ c)). now rewrite IH.
Qed.

Lemma wrapped_same_precedence op1 op2 side :
  precedence (BinaryOp_value op1) = precedence (BinaryOp_value op2) ->
  wrapped op1 side = wrapped op2 side.
Proof. intros H. unfold wrapped. now rewrite H. Qed.

(** The rendering does not show how operators of equal precedence are
    grouped: [(a op1 b) op2 c] and [a op1 (b op2 c)] are rendered as the
    same text whenever [op1] and [op2] have the same precedence, for
    instance [(1 - 2) - 3] and [1 - (2 - 3)]. *)
Theorem equal_precedence_grouping_is_not_rendered repr indent loc a op1 b op2 c :
  precedence (BinaryOp_value op1) = precedence (BinaryOp_value op2) ->
  Term_str repr indent (Binary loc (Binary loc a op1 b) op2 c) =
  Term_str repr indent (Binary loc a op1 (Binary loc b op2 c)).
Proof.
  intros H.
  assert (Hlt : forall p, (p <? p) = false) by (intros; apply Z.ltb_irrefl).
  simpl. rewrite !side_precedence_wrapped, H, !Hlt.
  rewrite (wrapped_same_precedence op1 op2 a H), (wrapped_same_precedence op1 op2 b H).
  now rewrite !append_assoc.
Qed.

Lemma equal_precedence_grouping_is_not_rendered_witness :
  let one := Int here 1 in
  let two := Int here 2 in
  let three := Int here 3 in
  Term_str (repr (as_module id_run1)) (indent (as_module id_run1))
    (Binary here (Binary here one SUB two) SUB three) =
  Term_str (repr (as_module id_run1)) (indent (as_module id_run1))
    (Binary here one SUB (Binary here two SUB three)).
Proof.
  apply (equal_precedence_grouping_is_not_rendered
           (repr (as_module id_run1)) (indent (as_module id_run1)) here
           (Int here 1) SUB (Int here 2) SUB (Int here 3)).
  reflexivity.
Defined.

(** ** Variables and Let *)

(** [let name = value; name] returns what [value] evaluates to, a closure
    being re-pointed at the new Env, whatever [name] was bound to before;
    and a variable other than [name] reads in [next] what it read before
    the [Let]. *)
Theorem let_binds_name_for_next host fuel env loc name value st e1 val st1 loc' x :
  evaluate host fuel env value st = (Returns (e1, val), st1) ->
  let next_env := length (envs st1) in
  exists st2,
    envs st1 `prefix_of` envs st2
    /\ evaluate host (S fuel) env (Let loc name value (Var loc' (text name))) st =
       (Returns (next_env, rebound next_env val), st2)
    /\ (x <> text name ->
        evaluate host (S fuel) env (Let loc name value (Var loc' x)) st =
        match (envs st1 !!! env) !! x with
        | Some v => (Returns (next_env, v), st2)
        | None => (Raises (ExecutionError ("unknown variable '" +:+ x +:+ "'")), st2)
        end).
Proof.
  intros Hv next_env.
  assert (Hf : exists fuel', fuel = S fuel').
  { destruct fuel; [discriminate | eauto]. }
  destruct Hf as [fuel' ->].
  eexists. split; [|split].
  2: { rewrite (evaluate_Let _ _ _ _ _ _ _ _ _ _ _ Hv). simpl.
       unfold values, mbind, Eval_bind. simpl.
       rewrite lookup_total_last, lookup_insert_eq. reflexivity. }
  - simpl. now apply prefix_app_r.
  - intros Hx. rewrite (evaluate_Let _ _ _ _ _ _ _ _ _ _ _ Hv). simpl.
    unfold values, mbind, Eval_bind. simpl.
    rewrite lookup_total_last, lookup_insert_ne by congruence.
    now destruct (_ !! x).
Qed.

Lemma let_binds_name_for_next_witness :
  let globals := snd (global_env initial_state) in
  exists st2,
    envs globals `prefix_of` envs st2
    /\ evaluate (as_module id_run1) 2 0%nat
         (Let here (mkSymbol here "true") (Int here 7) (Var here "true")) globals =
       (Returns (1%nat, Literal (PyInt 7)), st2)
    /\ ("false" <> "true" ->
        evaluate (as_module id_run1) 2 0%nat
          (Let here (mkSymbol here "true") (Int here 7) (Var here "false")) globals =
        match (envs globals !!! 0%nat) !! "false" with
        | Some v => (Returns (1%nat, v), st2)
        | None => (Raises (ExecutionError ("unknown variable '" +:+ "false" +:+ "'")), st2)
        end).
Proof.
  apply (let_binds_name_for_next (as_module id_run1) 1 0%nat here
           (mkSymbol here "true") (Int here 7) (snd (global_env initial_state))
           0%nat (Literal (PyInt 7)) (snd (global_env initial_state)) here "false").
  reflexivity.
Defined.

(** ** Calls *)

(** A [Call] whose callee evaluates to a Literal, or to a Closure that
    takes another number of parameters than there are arguments, ends with
    an exception in the state left by the callee: no argument has been
    evaluated, so none of them has printed anything. The exception is the
    [ExecutionError] whose message shows the callee, unless [str] fails
    while the message is built, on an integer too long for it or on a
    function nested deeper than the stack allows, and then it is what [str]
    raised. *)
Theorem call_is_checked_before_arguments
    host fuel env loc callee arguments st e1 f st1 :
  evaluate host fuel env callee st = (Returns (e1, f), st1) ->
  refused f arguments = true ->
  exists ex,
    evaluate host (S fuel) env (Call loc callee arguments) st = (Raises ex, st1)
    /\ refusal host fuel f arguments ex.
Proof.
  intros Hc Hr. rewrite (evaluate_Call _ _ _ _ _ _ _ _ _ _ Hc).
  destruct f as [x | function f_env]; simpl in Hr; simpl refusal.
  - unfold not_callable, mbind, Outcome_bind.
    destruct (Literal_str host x); eauto.
  - rewrite Hr. unfold wrong_arity, mbind, Outcome_bind.
    destruct (Function_render host fuel function); [|eauto].
    destruct (int_str host _); eauto.
Qed.

Lemma call_is_checked_before_arguments_witness :
  exists ex,
    evaluate (as_module id_run1) 3 0%nat
      (Call here (FunctionTerm identity_function) [Print here (Int here 1); Int here 2])
      initial_state = (Raises ex, initial_state)
    /\ refusal (as_module id_run1) 2 (Closure identity_function 0%nat)
         [Print here (Int here 1); Int here 2] ex.
Proof.
  apply (call_is_checked_before_arguments (as_module id_run1) 2 0%nat here
           (FunctionTerm identity_function) [Print here (Int here 1); Int here 2]
           initial_state 0%nat (Closure identity_function 0%nat) initial_state).
  - reflexivity.
  - reflexivity.
Defined.

(** A [Call] whose callee is a Closure of the right arity evaluates its
    arguments from left to right in the caller's Env, each in the state the
    previous one left; an exception in one of them ends the call. It then
    evaluates the body of the function in a new Env that extends the Env
    captured by the closure, not the caller's: there each parameter is
    bound to the value of the argument at the same position (the
    parameter names being distinct), and every other name reads what the
    captured Env holds. *)
Theorem call_binds_arguments_in_order
    host fuel env loc callee arguments st e1 function f_env st1 :
  evaluate host fuel env callee st = (Returns (e1, Closure function f_env), st1) ->
  length arguments = length (Function_parameters function) ->
  match evaluate_in_order (evaluate host fuel env) arguments st1 with
  | (Raises e, st2) =>
      evaluate host (S fuel) env (Call loc callee arguments) st = (Raises e, st2)
  | (Returns vs, st2) =>
      exists d,
        evaluate host (S fuel) env (Call loc callee arguments) st =
          evaluate host fuel (length (envs st2)) (Function_value function)
            {| envs := (envs st2 ++ [d])%list; stdout := stdout st2 |}
        /\ (NoDup (text <$> Function_parameters function) ->
            forall i p v,
              Function_parameters function !! i = Some p -> vs !! i = Some v ->
              d !! text p = Some v)
        /\ (forall x, x ∉ text <$> Function_parameters function ->
              d !! x = (envs st2 !!! f_env) !! x)
  end.
Proof.
  intros Hc Hlen.
  pose proof (bind_parameters_in_order (evaluate host fuel env)
                (Function_parameters function) arguments ∅ st1 Hlen) as Hb.
  destruct (evaluate_in_order (evaluate host fuel env) arguments st1)
    as [[vs | ex] st2] eqn:Ha.
  - rewrite (bind_Returns _ _ _ _ _ Ha) in Hb.
    exists (bound (Function_parameters function) vs ∅ ∪ (envs st2 !!! f_env)).
    split; [|split].
    + rewrite (evaluate_Call _ _ _ _ _ _ _ _ _ _ Hc).
      rewrite Hlen, Nat.eqb_refl. simpl.
      now rewrite (bind_Returns _ _ _ _ _ Hb).
    + intros Hnd i p v Hp Hv. apply lookup_union_Some_l.
      now apply (bound_positional _ _ _ i).
    + intros x Hx. apply lookup_union_r.
      rewrite bound_other by assumption. apply lookup_empty.
  - rewrite (bind_Raises _ _ _ _ _ Ha) in Hb.
    rewrite (evaluate_Call _ _ _ _ _ _ _ _ _ _ Hc).
    rewrite Hlen, Nat.eqb_refl. simpl.
    now rewrite (bind_Raises _ _ _ _ _ Hb).
Qed.

Lemma call_binds_arguments_in_order_witness :
  let globals := snd (global_env initial_state) in
  match evaluate_in_order (evaluate (as_module id_run1) 2 0%nat)
          [Print here (Int here 1)] globals with
  | (Raises e, st2) =>
      evaluate (as_module id_run1) 3 0%nat
        (Call here (FunctionTerm identity_function) [Print here (Int here 1)]) globals =
      (Raises e, st2)
  | (Returns vs, st2) =>
      exists d,
        evaluate (as_module id_run1) 3 0%nat
          (Call here (FunctionTerm identity_function) [Print here (Int here 1)]) globals =
          evaluate (as_module id_run1) 2 (length (envs st2))
            (Function_value identity_function)
            {| envs := (envs st2 ++ [d])%list; stdout := stdout st2 |}
        /\ (NoDup (text <$> Function_parameters identity_function) ->
            forall i p v,
              Function_parameters identity_function !! i = Some p -> vs !! i = Some v ->
              d !! text p = Some v)
        /\ (forall x, x ∉ text <$> Function_parameters identity_function ->
              d !! x = (envs st2 !!! 0%nat) !! x)
  end.
Proof.
  apply (call_binds_arguments_in_order (as_module id_run1) 2 0%nat here
           (FunctionTerm identity_function) [Print here (Int here 1)]
           (snd (global_env initial_state)) 0%nat identity_function 0%nat
           (snd (global_env initial_state))).
  - reflexivity.
  - reflexivity.
Defined.

(** ** Every Env referred to is allocated *)

Lemma Value_ok_mono n m v : (n <= m)%nat -> Value_ok n v -> Value_ok m v.
Proof. destruct v; simpl; [auto | lia]. Qed.

Lemma dict_ok_mono n m (d : gmap string Value) :
  (n <= m)%nat ->
  map_Forall (fun _ v => Value_ok n v) d -> map_Forall (fun _ v => Value_ok m v) d.
Proof. intros Hle H x v Hx. apply (Value_ok_mono n); [assumption | apply (H x v Hx)]. Qed.

Lemma store_ok_alloc store (d : gmap string Value) :
  store_ok store ->
  map_Forall (fun _ v => Value_ok (S (length store)) v) d ->
  store_ok (store ++ [d]).
Proof.
  intros Hs Hd. unfold store_ok. rewrite length_app, Nat.add_1_r.
  apply Forall_app. split.
  - eapply Forall_impl; [exact Hs|]. intros d'. apply dict_ok_mono. lia.
  - now apply Forall_singleton.
Qed.

Lemma store_ok_lookup store (a : addr) :
  store_ok store -> (a < length store)%nat ->
  map_Forall (fun _ v => Value_ok (length store) v) (store !!! a).
Proof.
  intros Hs Ha. destruct (lookup_lt_is_Some_2 store a Ha) as [d Hd].
  rewrite (list_lookup_total_correct _ _ _ Hd).
  apply (proj1 (Forall_lookup _ _) Hs a d Hd).
Qed.

Lemma invalid_operands_Raises host A tok l r :
  exists e, @invalid_operands host A tok l r = Raises e.
Proof.
  unfold invalid_operands, mbind, Outcome_bind.
  destruct (Value_str host l); [|eauto]. destruct (Value_str host r); eauto.
Qed.

Lemma binary_returns_Literal host op l r v :
  binary host op l r = Returns v -> exists x, v = Literal x.
Proof.
  unfold binary. set (tok := token (BinaryOp_value op)).
  destruct l as [x |], r as [y |];
    try (destruct (invalid_operands_Raises host Value tok) with (l := l) (r := r);
         fail).
  2-4: match goal with
       | |- invalid_operands _ _ ?l ?r = _ -> _ =>
           destruct (invalid_operands_Raises host Value tok l r) as [e ->];
           discriminate
       end.
  unfold operate, floordiv, pymod.
  repeat lazymatch goal with
         | |- match ?o with Some _ => _ | None => _ end = _ -> _ =>
             destruct o as [[a b] |]
         end;
    try (destruct (b =? 0)); intros H; try (inversion H; eauto; fail).
  destruct (invalid_operands_Raises host Value tok (Literal x) (Literal y)) as [e He].
  rewrite He in H. discriminate.
Qed.

Ltac finish := repeat split; simpl; auto; try lia.

Section Allocated.

Variable host : Host.

Lemma bind_parameters_allocated fuel env :
  keeps_allocated host fuel ->
  forall parameters arguments params st r st',
    store_ok (envs st) -> (env < length (envs st))%nat ->
    map_Forall (fun _ v => Value_ok (length (envs st)) v) params ->
    bind_parameters (evaluate host fuel env) parameters arguments params st = (r, st') ->
    store_ok (envs st') /\ (length (envs st) <= length (envs st'))%nat
    /\ match r with
       | Returns ps => map_Forall (fun _ v => Value_ok (length (envs st')) v) ps
       | Raises _ => True
       end.
Proof.
  intros IH.
  induction parameters as [| param parameters IHp];
    intros [| arg arguments] params st r st' Hs He Hp H; simpl in H;
    try solve [inversion H; subst; finish].
  unfold mbind, Eval_bind in H.
  destruct (evaluate host fuel env arg st) as [[[e v] | ex] st1] eqn:Ea.
  - destruct (IH _ _ _ _ _ Hs He Ea) as (Hs1 & Hl1 & _ & Hv).
    destruct (IHp arguments (<[text param := v]> params) st1 r st') as (Hs2 & Hl2 & Hr);
      try assumption; try lia.
    + apply map_Forall_insert_2; [assumption|]. now apply (dict_ok_mono _ _ _ Hl1).
    + repeat split; [assumption | lia | assumption].
  - inversion H; subst. destruct (IH _ _ _ _ _ Hs He Ea) as (Hs1 & Hl1 & _). finish.
Qed.

Lemma evaluate_keeps_allocated fuel : keeps_allocated host fuel.
Proof.
  induction fuel as [| fuel IH]; intros env term st r st' Hs He H.
  - inversion H; subst. finish.
  - destruct term as [loc name value next | function | loc condition then_ otherwise
                     | loc lhs op rhs | loc callee arguments | loc value
                     | loc text | loc value | loc value].
    + destruct (evaluate host fuel env value st) as [[[e1 val] | ex] st1] eqn:Ev.
      * destruct (IH _ _ _ _ _ Hs He Ev) as (Hs1 & Hl1 & _ & Hv).
        rewrite (evaluate_Let _ _ _ _ _ _ _ _ _ _ _ Ev) in H.
        apply IH in H as (Hs2 & Hl2 & Hr).
        -- simpl in Hl2. rewrite length_app in Hl2. simpl in Hl2.
           repeat split; [assumption | lia | assumption].
        -- simpl. apply store_ok_alloc; [assumption|].
           apply map_Forall_insert_2.
           ++ destruct val; simpl; [exact I | lia].
           ++ apply (dict_ok_mono (length (envs st1))); [lia|].
              apply store_ok_lookup; [assumption | lia].
        -- simpl. rewrite length_app. simpl. lia.
      * simpl in H. rewrite (bind_Raises _ _ _ _ _ Ev) in H. inversion H; subst.
        destruct (IH _ _ _ _ _ Hs He Ev) as (Hs1 & Hl1 & _). finish.
    + inversion H; subst. finish.
    + destruct (evaluate host fuel env condition st) as [[[e1 cond] | ex] st1] eqn:Ec.
      * destruct (IH _ _ _ _ _ Hs He Ec) as (Hs1 & Hl1 & _).
        rewrite (evaluate_If _ _ _ _ _ _ _ _ _ _ _ Ec) in H.
        assert (He1 : (env < length (envs st1))%nat) by lia.
        destruct cond as [[n | s | [|]] | f fe];
          try (inversion H; subst; simpl; auto; fail);
          apply IH in H as (Hs2 & Hl2 & Hr); try assumption;
          repeat split; try assumption; lia.
      * simpl in H. rewrite (bind_Raises _ _ _ _ _ Ec) in H. inversion H; subst.
        destruct (IH _ _ _ _ _ Hs He Ec) as (Hs1 & Hl1 & _). finish.
    + pose proof (binary_operands_are_both_evaluated_aux host fuel env loc lhs op rhs st) as B.
      destruct (evaluate host fuel env lhs st) as [[[e1 l] | ex] st1] eqn:El.
      * destruct (IH _ _ _ _ _ Hs He El) as (Hs1 & Hl1 & _).
        assert (He1 : (env < length (envs st1))%nat) by lia.
        destruct (evaluate host fuel env rhs st1) as [[[e2 r2] | ex] st2] eqn:Er.
        -- destruct (IH _ _ _ _ _ Hs1 He1 Er) as (Hs2 & Hl2 & _).
           rewrite B in H. unfold mbind, Outcome_bind in H.
           destruct (binary host op l r2) as [v | ex] eqn:Eb; inversion H; subst.
           ++ destruct (binary_returns_Literal _ _ _ _ _ Eb) as [x ->].
              repeat split; simpl; auto; lia.
           ++ repeat split; simpl; auto; lia.
        -- destruct (IH _ _ _ _ _ Hs1 He1 Er) as (Hs2 & Hl2 & _).
           rewrite B in H. inversion H; subst. repeat split; simpl; auto; lia.
      * rewrite B in H. inversion H; subst.
        destruct (IH _ _ _ _ _ Hs He El) as (Hs1 & Hl1 & _). finish.
    + destruct (evaluate host fuel env callee st) as [[[e1 f] | ex] st1] eqn:Ec.
      * destruct (IH _ _ _ _ _ Hs He Ec) as (Hs1 & Hl1 & _ & Hf).
        assert (He1 : (env < length (envs st1))%nat) by lia.
        rewrite (evaluate_Call _ _ _ _ _ _ _ _ _ _ Ec) in H.
        destruct f as [x | function f_env].
        { destruct (not_callable_Raises host (addr * Value) x) as [ex Hx].
          rewrite Hx in H. inversion H; subst. finish. }
        destruct (negb _).
        { destruct (wrong_arity_Raises host (addr * Value) fuel function arguments)
            as [ex Hx].
          rewrite Hx in H. inversion H; subst. finish. }
        unfold mbind at 1, Eval_bind at 1 in H.
        destruct (bind_parameters _ _ _ _ st1) as [[params | ex] st2] eqn:Ep.
        -- destruct (bind_parameters_allocated fuel env IH _ _ _ _ _ _ Hs1 He1
                       (map_Forall_empty _) Ep) as (Hs2 & Hl2 & Hp).
           simpl in Hf.
           unfold with_values, values, new_Env, mbind, Eval_bind in H. simpl in H.
           apply IH in H as (Hs3 & Hl3 & Hr).
           ++ simpl in Hl3. rewrite length_app in Hl3. simpl in Hl3.
              repeat split; [assumption | lia | assumption].
           ++ simpl. apply store_ok_alloc; [assumption|].
              apply map_Forall_union_2.
              ** apply (dict_ok_mono (length (envs st2))); [lia | assumption].
              ** apply (dict_ok_mono (length (envs st2))); [lia|].
                 apply store_ok_lookup; [assumption | lia].
           ++ simpl. rewrite length_app. simpl. lia.
        -- inversion H; subst.
           destruct (bind_parameters_allocated fuel env IH _ _ _ _ _ _ Hs1 He1
                       (map_Forall_empty _) Ep) as (Hs2 & Hl2 & _).
           repeat split; simpl; auto; lia.
      * simpl in H. rewrite (bind_Raises _ _ _ _ _ Ec) in H. inversion H; subst.
        destruct (IH _ _ _ _ _ Hs He Ec) as (Hs1 & Hl1 & _). finish.
    + simpl in H. unfold mbind, Eval_bind in H.
      destruct (evaluate host fuel env value st) as [[[e1 val] | ex] st1] eqn:Ev.
      * destruct (IH _ _ _ _ _ Hs He Ev) as (Hs1 & Hl1 & _ & Hv).
        unfold lift in H. destruct (Value_str host val); inversion H; subst; simpl;
          repeat split; auto; lia.
      * inversion H; subst. destruct (IH _ _ _ _ _ Hs He Ev) as (Hs1 & Hl1 & _). finish.
    + simpl in H. unfold mbind, Eval_bind, values in H. simpl in H.
      match type of H with
      | match ?o with Some _ => _ | None => _ end _ = _ =>
          destruct o as [v |] eqn:Ex
      end; inversion H; subst.
      * repeat split; auto. apply (store_ok_lookup _ _ Hs He _ _ Ex).
      * finish.
    + inversion H; subst. finish.
    + inversion H; subst. finish.
Qed.

End Allocated.

(** Whatever the program, after [run_file] every closure held by an Env of
    the store refers to an Env of the store, and so do the Env returned and
    the value returned if it is a closure: no lookup ever reads an Env that
    was not created. *)
Theorem run_file_keeps_envs_allocated host fuel file :
  let '(r, st') := run_file host fuel file in
  store_ok (envs st') /\ result_ok (length (envs st')) r.
Proof.
  destruct (run_file host fuel file) as [r st'] eqn:H.
  unfold run_file, mbind, Eval_bind in H. simpl in H.
  apply evaluate_keeps_allocated in H as (Hs & _ & Hr); [auto | | simpl; lia].
  simpl. apply (store_ok_alloc []); [constructor|].
  intros x v Hx.
  apply lookup_insert_Some in Hx as [[_ <-] | [_ Hx]]; [exact I|].
  apply lookup_insert_Some in Hx as [[_ <-] | [_ Hx]]; [exact I|].
  now rewrite lookup_empty in Hx.
Qed.

(** ** The recursion limit *)

Lemma int_str_Returns host n s : int_str host n = Returns s -> s = str_int n.
Proof. unfold int_str. destruct (_ && _); intros H; now inversion H. Qed.

Lemma mapM_Returns {A B} (f : A -> Outcome B) (g : A -> B) (l : list A) :
  (forall a b, f a = Returns b -> b = g a) ->
  forall bs, mapM f l = Returns bs -> bs = map g l.
Proof.
  intros Hf. induction l as [| a l IH]; intros bs H; simpl in H.
  - now inversion H.
  - unfold mbind, Outcome_bind in H.
    destruct (f a) as [b |] eqn:Ea; [|discriminate].
    destruct (mapM f l) as [bs' |]; [|discriminate].
    inversion H; subst. simpl. now rewrite (Hf _ _ Ea), (IH bs' eq_refl).
Qed.

(** When the rendering of a term returns, it returns the text of
    [Term_str]. *)
Lemma Term_render_Returns host :
  forall fuel term s,
    Term_render host fuel term = Returns s ->
    s = Term_str (repr host) (indent host) term.
Proof.
  induction fuel as [| fuel IH]; intros term s H; [discriminate|].
  destruct term as [loc name value next | [loc value parameters]
                   | loc condition then_ otherwise
                   | loc lhs op rhs | loc callee arguments | loc value
                   | loc text | loc value | loc value];
    simpl in H; unfold mbind, Outcome_bind in H;
    repeat match type of H with
           | match Term_render host fuel ?t with _ => _ end = _ =>
               let E := fresh "E" in
               destruct (Term_render host fuel t) eqn:E; [apply IH in E; subst|discriminate]
           end.
  - now inversion H.
  - now inversion H.
  - now inversion H.
  - now inversion H.
  - destruct (mapM _ arguments) as [args |] eqn:Ea; [|discriminate].
    apply (mapM_Returns _ (Term_str (repr host) (indent host)) _ (IH)) in Ea. subst.
    now inversion H.
  - now inversion H.
  - now inversion H.
  - now apply (int_str_Returns host).
  - now inversion H.
Qed.

(** The same for what does not touch the state. *)
Lemma finishes_bind {A B} (m m' : Outcome A) (f f' : A -> Outcome B) :
  (hit_limit m = false -> m' = m) ->
  (forall a, hit_limit (f a) = false -> f' a = f a) ->
  hit_limit (m ≫= f) = false -> m' ≫= f' = m ≫= f.
Proof.
  intros Hm Hf. unfold mbind, Outcome_bind. destruct m as [a | e].
  - rewrite (Hm eq_refl). apply Hf.
  - intros H. now rewrite (Hm H).
Qed.

Lemma finishes_mapM {A B} (f f' : A -> Outcome B) (l : list A) :
  (forall a, hit_limit (f a) = false -> f' a = f a) ->
  hit_limit (mapM f l) = false -> mapM f' l = mapM f l.
Proof.
  intros Hf. induction l as [| x l IH]; [reflexivity|]. simpl.
  apply finishes_bind; [apply Hf|]. intros y.
  apply finishes_bind; [apply IH|]. reflexivity.
Qed.

Lemma Term_render_finishes host :
  forall fuel fuel', (fuel <= fuel')%nat ->
  forall term,
    hit_limit (Term_render host fuel term) = false ->
    Term_render host fuel' term = Term_render host fuel term.
Proof.
  induction fuel as [| fuel IH]; intros fuel' Hle term; [discriminate|].
  destruct fuel' as [| n]; [lia|]. assert (Hn : (fuel <= n)%nat) by lia.
  specialize (IH n Hn).
  destruct term as [loc name value next | [loc value parameters]
                   | loc condition then_ otherwise
                   | loc lhs op rhs | loc callee arguments | loc value
                   | loc text | loc value | loc value]; simpl; try reflexivity.
  - apply finishes_bind; [apply IH|]. intros value_s.
    apply finishes_bind; [apply IH|]. reflexivity.
  - apply finishes_bind; [apply IH|]. reflexivity.
  - apply finishes_bind; [apply IH|]. intros then_s.
    apply finishes_bind; [apply IH|]. intros otherwise_s.
    apply finishes_bind; [apply IH|]. reflexivity.
  - apply finishes_bind; [apply IH|]. intros lhs_s.
    apply finishes_bind; [apply IH|]. reflexivity.
  - apply finishes_bind; [apply IH|]. intros callee_s.
    apply finishes_bind; [apply finishes_mapM; apply IH|]. reflexivity.
  - apply finishes_bind; [apply IH|]. reflexivity.
Qed.

Lemma wrong_arity_finishes host A fuel fuel' function arguments :
  (fuel <= fuel')%nat ->
  hit_limit (@wrong_arity host A fuel function arguments) = false ->
  @wrong_arity host A fuel' function arguments = wrong_arity host fuel function arguments.
Proof.
  intros Hle. unfold wrong_arity, Function_render.
  apply finishes_bind; [now apply Term_render_finishes|]. reflexivity.
Qed.

Lemma completes_lift {A} (o o' : Outcome A) :
  (hit_limit o = false -> o' = o) -> completes (lift o) (lift o').
Proof. intros Ho st r st' H Hr. inversion H; subst. unfold lift. now rewrite Ho. Qed.

Lemma completes_refl {A} (m : Eval A) : completes m m.
Proof. intros st r st' H _. exact H. Qed.

Lemma completes_bind {A B} (m m' : Eval A) (f f' : A -> Eval B) :
  completes m m' -> (forall a, completes (f a) (f' a)) ->
  completes (m ≫= f) (m' ≫= f').
Proof.
  intros Hm Hf st r st' H Hr. unfold mbind, Eval_bind in *.
  destruct (m st) as [[a | e] st1] eqn:E.
  - rewrite (Hm _ _ _ E eq_refl). now apply Hf.
  - inversion H; subst. now rewrite (Hm _ _ _ E Hr).
Qed.

Lemma completes_bind_parameters (ev ev' : Term -> Eval (addr * Value)) parameters :
  (forall arg, completes (ev arg) (ev' arg)) ->
  forall arguments params,
    completes (bind_parameters ev parameters arguments params)
              (bind_parameters ev' parameters arguments params).
Proof.
  intros Hev. induction parameters as [| param parameters IH];
    intros [| arg arguments] params; simpl; try apply completes_refl.
  apply completes_bind; [apply Hev|]. intros [e v]. apply IH.
Qed.

Lemma evaluate_completes host :
  forall fuel fuel', (fuel <= fuel')%nat ->
  forall env term,
    completes (evaluate host fuel env term) (evaluate host fuel' env term).
Proof.
  induction fuel as [| fuel IH]; intros fuel' Hle env term.
  - intros st r st' H Hr. inversion H; subst. discriminate.
  - destruct fuel' as [| n]; [lia|]. assert (Hn : (fuel <= n)%nat) by lia.
    specialize (IH n Hn).
    destruct term as [loc name value next | function | loc condition then_ otherwise
                     | loc lhs op rhs | loc callee arguments | loc value
                     | loc text | loc value | loc value]; simpl;
      try apply completes_refl.
    + apply completes_bind; [apply IH|]. intros [e val].
      apply completes_bind; [apply completes_refl|]. intros next_env.
      apply completes_bind; [apply completes_refl|]. intros _. apply IH.
    + apply completes_bind; [apply IH|]. intros [e [[k | s | [|]] | f fe]];
        try apply completes_refl; apply IH.
    + apply completes_bind; [apply IH|]. intros [e l].
      apply completes_bind; [apply IH|]. intros [e' r]. apply completes_refl.
    + apply completes_bind; [apply IH|]. intros [e [x | function f_env]];
        [apply completes_refl|].
      destruct (negb _); [apply completes_lift; now apply wrong_arity_finishes|].
      apply completes_bind; [apply completes_bind_parameters; intros; apply IH|].
      intros params. apply completes_bind; [apply completes_refl|]. intros call_env.
      apply IH.
    + apply completes_bind; [apply IH|]. intros [e val]. apply completes_refl.
Qed.

(** Raising the recursion limit does not change a run that was not stopped
    by it: the same result (value or exception), the same store and the
    same printed output are obtained with any larger bound. *)
Theorem more_recursion_depth_same_run host fuel fuel' env term st r st' :
  evaluate host fuel env term st = (r, st') ->
  hit_limit r = false ->
  (fuel <= fuel')%nat ->
  evaluate host fuel' env term st = (r, st').
Proof.
  intros H Hr Hle. now apply (evaluate_completes host fuel fuel' Hle env term st).
Qed.

Lemma more_recursion_depth_same_run_witness :
  evaluate (as_module id_run1) 1000 0%nat (expression factorial_program)
    (snd (global_env initial_state)) =
  evaluate (as_module id_run1) 20 0%nat (expression factorial_program)
    (snd (global_env initial_state)).
Proof.
  apply (more_recursion_depth_same_run (as_module id_run1) 20 1000 0%nat
           (expression factorial_program) (snd (global_env initial_state))).
  - vm_compute. reflexivity.
  - vm_compute. reflexivity.
  - lia.
Defined.

(** ** Printed output *)

Lemma append_empty_r (s : string) : s +:+ "" = s.
Proof.
  induction s as [| x s IH]; [reflexivity|].
  change (String x (s +:+ "") = String x s). now rewrite IH.
Qed.

Lemma prints_bind {A B} (m : Eval A) (f : A -> Eval B) :
  prints m -> (forall a, prints (f a)) -> prints (m ≫= f).
Proof.
  intros Hm Hf st. unfold mbind, Eval_bind.
  destruct (Hm st) as [out1 H1]. destruct (m st) as [[a | e] st1]; simpl in H1.
  - destruct (Hf a st1) as [out2 H2]. exists (out1 +:+ out2).
    now rewrite H2, H1, append_assoc.
  - now exists out1.
Qed.

Lemma prints_nothing {A} (m : Eval A) :
  (forall st, stdout (snd (m st)) = stdout st) -> prints m.
Proof. intros H st. exists "". now rewrite H, append_empty_r. Qed.

Lemma prints_bind_parameters (ev : Term -> Eval (addr * Value)) parameters :
  (forall arg, prints (ev arg)) ->
  forall arguments params, prints (bind_parameters ev parameters arguments params).
Proof.
  intros Hev. induction parameters as [| param parameters IH];
    intros [| arg arguments] params; simpl; try (now apply prints_nothing).
  apply prints_bind; [apply Hev|]. intros [e v]. apply IH.
Qed.

Lemma prints_evaluate host fuel : forall env term, prints (evaluate host fuel env term).
Proof.
  induction fuel as [| fuel IH]; intros env term; [now apply prints_nothing|].
  destruct term as [loc name value next | function | loc condition then_ otherwise
                   | loc lhs op rhs | loc callee arguments | loc value
                   | loc text | loc value | loc value]; simpl;
    try (now apply prints_nothing).
  - apply prints_bind; [apply IH|]. intros [e val].
    apply prints_bind; [now apply prints_nothing|]. intros next_env.
    apply prints_bind; [|intros; apply IH].
    destruct val; now apply prints_nothing.
  - apply prints_bind; [apply IH|]. intros [e [[k | s | [|]] | f fe]];
      try (now apply prints_nothing); apply IH.
  - apply prints_bind; [apply IH|]. intros [e l].
    apply prints_bind; [apply IH|]. intros [e' r].
    apply prints_bind; [now apply prints_nothing|]. intros v. now apply prints_nothing.
  - apply prints_bind; [apply IH|]. intros [e [x | function f_env]];
      [now apply prints_nothing|].
    destruct (negb _); [now apply prints_nothing|].
    apply prints_bind; [apply prints_bind_parameters; intros; apply IH|].
    intros params. apply prints_bind; [now apply prints_nothing|]. intros; apply IH.
  - apply prints_bind; [apply IH|]. intros [e val].
    apply prints_bind; [now apply prints_nothing|]. intros s.
    apply prints_bind; [|intros; now apply prints_nothing].
    intros st. now exists s.
  - intros st. exists "". unfold mbind, Eval_bind, values. simpl.
    destruct (_ !! text); simpl; now rewrite append_empty_r.
Qed.

(** What has been printed is never taken back: whatever the term and
    however its evaluation ends, the output afterwards is the output
    before followed by what the evaluation wrote; and a [Print] whose
    operand evaluates to a Literal writes exactly the text that [str] gives
    for that Literal, nothing before, no newline after, and returns the
    value, unless the Literal is an integer too long for [str]: then the
    [Print] raises what [str] raised and writes nothing. *)
Theorem output_is_only_appended host fuel env term st :
  (exists out, stdout (snd (evaluate host fuel env term st)) = stdout st +:+ out)
  /\ forall loc e x st1,
       evaluate host fuel env term st = (Returns (e, Literal x), st1) ->
       evaluate host (S fuel) env (Print loc term) st =
       match Literal_str host x with
       | Returns s =>
           (Returns (env, Literal x),
            {| envs := envs st1; stdout := stdout st1 +:+ s |})
       | Raises ex => (Raises ex, st1)
       end.
Proof.
  split; [apply prints_evaluate|].
  intros loc e x st1 H. simpl. rewrite (bind_Returns _ _ _ _ _ H). simpl.
  unfold lift, mbind, Eval_bind. now destruct (Literal_str host x).
Qed.

Lemma output_is_only_appended_witness :
  (exists out,
      stdout (snd (evaluate (as_module id_run1) 1 0%nat (Str here "ab") initial_state)) =
      stdout initial_state +:+ out)
  /\ forall loc e x st1,
       evaluate (as_module id_run1) 1 0%nat (Str here "ab") initial_state =
         (Returns (e, Literal x), st1) ->
       evaluate (as_module id_run1) 2 0%nat (Print loc (Str here "ab")) initial_state =
       match Literal_str (as_module id_run1) x with
       | Returns s =>
           (Returns (0%nat, Literal x),
            {| envs := envs st1; stdout := stdout st1 +:+ s |})
       | Raises ex => (Raises ex, st1)
       end.
Proof.
  exact (output_is_only_appended (as_module id_run1) 1 0%nat (Str here "ab")
           initial_state).
Defined.

(** ** Recursion at any depth *)

Lemma evaluate_Var host fuel env loc x st v :
  (envs st !!! env) !! x = Some v ->
  evaluate host (S fuel) env (Var loc x) st = (Returns (env, v), st).
Proof. intros H. simpl. unfold mbind, Eval_bind, values. simpl. now rewrite H. Qed.

Lemma evaluate_n_op_literal host fuel cenv st op k c :
  (envs st !!! cenv) !! "n" = Some (Literal (PyInt k)) ->
  evaluate host (S (S fuel)) cenv (Binary here (Var here "n") op (Int here c)) st =
  (v ← binary host op (Literal (PyInt k)) (Literal (PyInt c)); mret (cenv, v), st).
Proof.
  intros Hn.
  apply (evaluate_Binary host (S fuel) cenv here _ op _ st cenv _ st cenv _ st).
  - now apply evaluate_Var.
  - reflexivity.
Qed.

Lemma factorial_body_evaluates host : forall k st cenv E,
  (E < length (envs st))%nat ->
  (envs st !!! E) !! "f" = Some (Closure factorial_function E) ->
  (envs st !!! cenv) !! "f" = Some (Closure factorial_function E) ->
  (envs st !!! cenv) !! "n" = Some (Literal (PyInt (Z.of_nat k))) ->
  exists e st',
    evaluate host (3 * k + 3) cenv factorial_body st =
      (Returns (e, Literal (PyInt (factorial k))), st')
    /\ stdout st' = stdout st.
Proof.
  induction k as [| k IH]; intros st cenv E HE HfE Hf Hn.
  - exists cenv, st. split; [|reflexivity].
    change (3 * 0 + 3)%nat with 3%nat. unfold factorial_body.
    now rewrite (evaluate_If _ _ _ _ _ _ _ _ _ _ _
                   (evaluate_n_op_literal host 0 cenv st EQ _ 0 Hn)).
  - replace (3 * S k + 3)%nat with (S (S (S (3 * k + 3)))) by lia.
    remember (3 * k + 3)%nat as fuel eqn:Hf3.
    assert (Hfuel : exists m, fuel = S (S m)) by (exists (3 * k + 1)%nat; lia).
    destruct Hfuel as [m Hm].
    set (d := bound [mkSymbol here "n"] [Literal (PyInt (Z.of_nat k))] ∅
              ∪ (envs st !!! E)).
    set (st2 := {| envs := (envs st ++ [d])%list; stdout := stdout st |}).
    destruct (IH st2 (length (envs st)) E) as (e & st' & Hbody & Hout).
    + simpl. rewrite length_app. simpl. lia.
    + simpl. now rewrite lookup_total_app_l.
    + simpl. rewrite lookup_total_last. unfold d.
      rewrite lookup_union_r; [assumption|]. reflexivity.
    + simpl. rewrite lookup_total_last. unfold d.
      apply lookup_union_Some_l. reflexivity.
    + assert (Harg : evaluate host fuel cenv
                       (Binary here (Var here "n") SUB (Int here 1)) st =
                     (Returns (cenv, Literal (PyInt (Z.of_nat k))), st)).
      { rewrite Hm, (evaluate_n_op_literal host m cenv st SUB _ 1 Hn).
        replace (Z.of_nat k) with (Z.of_nat (S k) - 1) by lia. reflexivity. }
      assert (Hcallee : evaluate host fuel cenv (Var here "f") st =
                        (Returns (cenv, Closure factorial_function E), st)).
      { rewrite Hm. now apply evaluate_Var. }
      assert (Hcall : evaluate host (S fuel) cenv
                        (Call here (Var here "f")
                           [Binary here (Var here "n") SUB (Int here 1)]) st =
                      (Returns (e, Literal (PyInt (factorial k))), st')).
      { rewrite (evaluate_Call _ _ _ _ _ _ _ _ _ _ Hcallee).
        simpl.
        match goal with
        | |- ((?m ≫= ?f) ≫= _) st = _ =>
            assert (Hp : (m ≫= f) st =
                         (Returns (<["n" := Literal (PyInt (Z.of_nat k))]> ∅), st))
              by (now rewrite (bind_Returns _ _ _ _ _ Harg))
        end.
        rewrite (bind_Returns _ _ _ _ _ Hp).
        unfold with_values, values, new_Env, mbind, mret, Eval_bind, Eval_ret. simpl.
        exact Hbody. }
      exists cenv, st'. split; [|exact Hout]. unfold factorial_body.
      rewrite (evaluate_If _ _ _ _ _ _ _ _ _ _ _
                 (evaluate_n_op_literal host fuel cenv st EQ _ 0 Hn)).
      replace (Literal_eq (PyInt (Z.of_nat (S k))) (PyInt 0)) with false
        by (symmetry; apply Z.eqb_neq; lia).
      assert (Hvar : evaluate host (S fuel) cenv (Var here "n") st =
                     (Returns (cenv, Literal (PyInt (Z.of_nat (S k)))), st))
        by now apply evaluate_Var.
      now rewrite (evaluate_Binary _ _ _ _ _ _ _ _ _ _ _ _ _ _ Hvar Hcall).
Qed.

(** Recursion through the name bound by [Let] works at any depth: for
    every natural number [k] the program
    [let f = fn (n) => if n == 0 {1} else {n * f(n - 1)}; f(k)] returns the
    Literal holding [k!] and prints nothing, as soon as the recursion limit
    allows [3 * k + 5] nested calls of [evaluate]. *)
Theorem factorial_program_computes_factorial host k fuel :
  (3 * k + 5 <= fuel)%nat ->
  exists e st',
    run_file host fuel (factorial_of (Z.of_nat k)) =
      (Returns (e, Literal (PyInt (factorial k))), st')
    /\ stdout st' = "".
Proof.
  intros Hfuel.
  set (d1 := <["f" := Closure factorial_function 1%nat]>
               (envs (snd (global_env initial_state)) !!! 0%nat)).
  set (st1 := {| envs := (envs (snd (global_env initial_state)) ++ [d1])%list;
                 stdout := "" |}).
  set (d2 := bound [mkSymbol here "n"] [Literal (PyInt (Z.of_nat k))] ∅
             ∪ (envs st1 !!! 1%nat)).
  set (st2 := {| envs := (envs st1 ++ [d2])%list; stdout := "" |}).
  assert (H1 : (1 < length (envs st2))%nat) by (simpl; lia).
  assert (H2 : (envs st2 !!! 1%nat) !! "f" = Some (Closure factorial_function 1%nat))
    by reflexivity.
  assert (H3 : (envs st2 !!! 2%nat) !! "f" = Some (Closure factorial_function 1%nat))
    by reflexivity.
  assert (H4 : (envs st2 !!! 2%nat) !! "n" = Some (Literal (PyInt (Z.of_nat k))))
    by (apply lookup_union_Some_l; reflexivity).
  destruct (factorial_body_evaluates host k st2 2%nat 1%nat H1 H2 H3 H4)
    as (e & st' & Hbody & Hout).
  exists e, st'. split; [|exact Hout].
  apply (evaluate_completes host (3 * k + 5) fuel Hfuel); [|reflexivity].
  replace (3 * k + 5)%nat with (S (S (3 * k + 3))) by lia.
  assert (Hm : exists m, (3 * k + 3)%nat = S m) by (exists (3 * k + 2)%nat; lia).
  destruct Hm as [m Hm].
  unfold factorial_of. simpl expression.
  erewrite evaluate_Let; [| rewrite Hm; reflexivity].
  erewrite evaluate_Call; [| rewrite Hm; reflexivity].
  simpl. unfold mbind at 1, Eval_bind at 1. rewrite Hm at 1. simpl.
  unfold with_values, values, new_Env, mbind, mret, Eval_bind, Eval_ret. simpl.
  exact Hbody.
Qed.

Lemma factorial_program_computes_factorial_witness :
  exists e st',
    run_file (as_module id_run1) 35 (factorial_of (Z.of_nat 10)) =
      (Returns (e, Literal (PyInt (factorial 10))), st')
    /\ stdout st' = "".
Proof.
  apply (factorial_program_computes_factorial (as_module id_run1) 10 35). lia.
Defined.

(** ** More on operators and conditionals *)

(** The member [NOT] of [BinaryOp] has no case in the operator table: a
    [Binary] with it on two Literals never returns a value. It raises the
    [ExecutionError] for invalid operands that shows both, unless one of
    them is an integer too long for [str], which then raises [ValueError]
    while the message is built. *)
Theorem NOT_is_never_accepted host l r :
  binary host NOT (Literal l) (Literal r) =
    (sl ← Literal_str host l;
     sr ← Literal_str host r;
     Raises (ExecutionError ("Invalid operands for '!': " +:+ sl +:+ ", " +:+ sr)))
  /\ ((exists sl sr,
         Literal_str host l = Returns sl /\ Literal_str host r = Returns sr
         /\ binary host NOT (Literal l) (Literal r) =
            Raises (ExecutionError
                      ("Invalid operands for '!': " +:+ sl +:+ ", " +:+ sr)))
      \/ (binary host NOT (Literal l) (Literal r) = Raises ValueError
          /\ (too_long host l \/ too_long host r))).
Proof.
  assert (E : binary host NOT (Literal l) (Literal r) =
              invalid_operands host "!" (Literal l) (Literal r))
    by (destruct l, r; reflexivity).
  split; [exact E|]. rewrite E.
  destruct (invalid_operands_answer host "!" l r)
    as [[x Hx] | [[Hx _] | [(sl & sr & Hl & Hr & Hx) | [Hx Hlong]]]].
  - destruct (invalid_operands_Raises host Value "!" (Literal l) (Literal r)) as [e He].
    rewrite He in Hx. discriminate.
  - destruct (Literal_str_cases host l) as [[sl Hl] | [Hl Hlong]];
      [destruct (Literal_str_cases host r) as [[sr Hr] | [Hr Hlong]]|];
      unfold invalid_operands, mbind, Outcome_bind in Hx |- *; simpl in Hx |- *;
      rewrite ?Hl, ?Hr in Hx |- *; try discriminate; eauto 10.
  - left. eauto 10.
  - right. auto.
Qed.

Lemma Scalar_eq_refl x : Scalar_eq x x = true.
Proof.
  destruct x as [n | s | b]; unfold Scalar_eq; simpl;
    [apply Z.eqb_refl | apply String.eqb_refl | apply Z.eqb_refl].
Qed.

Lemma Scalar_eq_sym x y : Scalar_eq x y = Scalar_eq y x.
Proof.
  destruct x as [n | s | b], y as [n' | s' | b']; unfold Scalar_eq; simpl;
    try reflexivity; try apply Z.eqb_sym; apply String.eqb_sym.
Qed.

(** [==] on Literals is an equivalence: every Literal equals itself, the
    order of the operands does not matter, and two Literals equal to a
    third are equal to each other, also across integers and booleans. *)
Theorem literal_equality_is_an_equivalence :
  (forall x, Literal_eq x x = true)
  /\ (forall x y, Literal_eq x y = Literal_eq y x)
  /\ (forall x y z, Literal_eq x y = true -> Literal_eq y z = true ->
                    Literal_eq x z = true).
Proof.
  split; [apply Scalar_eq_refl | split; [apply Scalar_eq_sym|]].
  intros x y z Hxy Hyz. unfold Literal_eq in *.
  apply Scalar_eq_true in Hxy as [(s & -> & ->) | (n & Hx & Hy)].
  - exact Hyz.
  - apply Scalar_eq_true in Hyz as [(s & -> & ->) | (n' & Hy' & Hz)];
      [discriminate|].
    apply Scalar_eq_true. right. exists n. split; [assumption|]. congruence.
Qed.

Lemma literal_equality_is_an_equivalence_witness :
  Literal_eq (PyBool true) (PyBool true) = true
  /\ Literal_eq (PyBool true) (PyInt 1) = Literal_eq (PyInt 1) (PyBool true)
  /\ (Literal_eq (PyBool true) (PyInt 1) = true ->
      Literal_eq (PyInt 1) (PyBool true) = true ->
      Literal_eq (PyBool true) (PyBool true) = true).
Proof.
  destruct literal_equality_is_an_equivalence as (Hr & Hs & Ht).
  split; [apply Hr | split; [apply Hs | apply Ht]].
Defined.

(** An [If] evaluates one branch only: when the condition evaluates to
    [true] the result and the final state are those of [then] in the state
    left by the condition, whatever the other branch is, and likewise for
    [false] and [otherwise]; the branch not taken is never evaluated. *)
Theorem if_evaluates_one_branch
    host fuel env loc condition then_ otherwise st e1 b st1 :
  evaluate host fuel env condition st = (Returns (e1, Literal (PyBool b)), st1) ->
  evaluate host (S fuel) env (If loc condition then_ otherwise) st =
    evaluate host fuel env (if b then then_ else otherwise) st1
  /\ (forall other,
        evaluate host (S fuel) env
          (if b then If loc condition then_ other else If loc condition other otherwise)
          st =
        evaluate host (S fuel) env (If loc condition then_ otherwise) st).
Proof.
  intros Hc. split.
  - rewrite (evaluate_If _ _ _ _ _ _ _ _ _ _ _ Hc). now destruct b.
  - intros other. destruct b; now rewrite !(evaluate_If _ _ _ _ _ _ _ _ _ _ _ Hc).
Qed.

Lemma if_evaluates_one_branch_witness :
  let globals := snd (global_env initial_state) in
  evaluate (as_module id_run1) 2 0%nat
    (If here (Var here "true") (Int here 1) (Var here "unbound")) globals =
    evaluate (as_module id_run1) 1 0%nat (Int here 1) globals
  /\ (forall other,
        evaluate (as_module id_run1) 2 0%nat
          (If here (Var here "true") (Int here 1) other) globals =
        evaluate (as_module id_run1) 2 0%nat
          (If here (Var here "true") (Int here 1) (Var here "unbound")) globals).
Proof.
  apply (if_evaluates_one_branch (as_module id_run1) 1 0%nat here
           (Var here "true") (Int here 1) (Var here "unbound")
           (snd (global_env initial_state)) 0%nat true
           (snd (global_env initial_state))).
  reflexivity.
Defined.
